(** * pulsar: HTTP parser, events, actor spawner and test runner

    A shallow embedding of the Python sources

      - [pulsar/utils/http/parser.py]   (module [Http])
      - [pulsar/utils/pylib/events.py]  (module [Events])
      - [pulsar/async/concurrency.py]   (module [Spawner])
      - [pulsar/apps/test/case.py]      (module [TestCase])

    Python objects are records, attribute assignment is explicit state
    passing, exceptions are a result constructor that keeps the state
    reached when the exception left the method, and calls into
    collaborators (protocol callbacks, event handlers, the test runner)
    are recorded in a log carried next to the object. *)

From Stdlib Require Import ZArith List Strings.String Strings.Byte Strings.Ascii.
From Stdlib Require Import Bool Lia DecimalString QArith.
From stdpp Require Import base gmap strings list.
Import ListNotations.
Open Scope Z_scope.

(** ** Python [bytes] and the built-ins the parser uses *)

Module PyBytes.

Definition bytes := list byte.

(** A bytes literal written as text. *)
Definition b (s : string) : bytes := list_byte_of_string s.

Definition ord (c : byte) : N := Byte.to_N c.

Definition CR : byte := x0d.
Definition LF : byte := x0a.
Definition CRLF : bytes := [CR; LF].

Fixpoint bytes_eqb (x y : bytes) : bool :=
  match x, y with
  | [], [] => true
  | c :: x', d :: y' => Byte.eqb c d && bytes_eqb x' y'
  | _, _ => false
  end.

Fixpoint startswith (d sub : bytes) : bool :=
  match sub, d with
  | [], _ => true
  | c :: sub', e :: d' => Byte.eqb c e && startswith d' sub'
  | _ :: _, [] => false
  end.

(** [d.find(sub)]: the lowest index at which [sub] occurs in [d], [-1]
    when it does not occur. *)
Fixpoint find_from (i : Z) (d sub : bytes) : Z :=
  if startswith d sub then i
  else match d with
       | [] => -1
       | _ :: d' => find_from (i + 1) d' sub
       end.

Definition find (d sub : bytes) : Z := find_from 0 d sub.

(** [d[:i]] and [d[i:]] for an index [0 <= i]; the parser only slices at
    indices returned by a successful [find]. *)
Definition slice_to (i : Z) (d : bytes) : bytes := firstn (Z.to_nat i) d.
Definition slice_from (i : Z) (d : bytes) : bytes := skipn (Z.to_nat i) d.

(** ASCII classes: [bytes.isspace], [\d] and [\w] of a bytes pattern. *)
Definition isspace (c : byte) : bool :=
  let n := ord c in ((9 <=? n) && (n <=? 13) || (n =? 32))%N.

Definition isdigit (c : byte) : bool :=
  let n := ord c in ((48 <=? n) && (n <=? 57))%N.

Definition isupper (c : byte) : bool :=
  let n := ord c in ((65 <=? n) && (n <=? 90))%N.

Definition islower (c : byte) : bool :=
  let n := ord c in ((97 <=? n) && (n <=? 122))%N.

Definition isword (c : byte) : bool :=
  isupper c || islower c || isdigit c || Byte.eqb c x5f.

Fixpoint lstrip_with (p : byte -> bool) (d : bytes) : bytes :=
  match d with
  | [] => []
  | c :: d' => if p c then lstrip_with p d' else d
  end.

Definition rstrip_with (p : byte -> bool) (d : bytes) : bytes :=
  rev (lstrip_with p (rev d)).

(** [d.lstrip()], [d.strip()] and [d.rstrip(chars)]. *)
Definition lstrip (d : bytes) : bytes := lstrip_with isspace d.
Definition strip (d : bytes) : bytes := rstrip_with isspace (lstrip d).
Definition rstrip_chars (chars d : bytes) : bytes :=
  rstrip_with (fun c => existsb (Byte.eqb c) chars) d.

Definition lower_byte (c : byte) : byte :=
  if isupper c then
    match Byte.of_N (ord c + 32) with Some c' => c' | None => c end
  else c.

Definition upper_byte (c : byte) : byte :=
  if islower c then
    match Byte.of_N (ord c - 32) with Some c' => c' | None => c end
  else c.

Definition lower (d : bytes) : bytes := map lower_byte d.
Definition upper (d : bytes) : bytes := map upper_byte d.

(** The longest prefix whose bytes satisfy [p], and the rest. *)
Fixpoint span (p : byte -> bool) (d : bytes) : bytes * bytes :=
  match d with
  | [] => ([], [])
  | c :: d' =>
      if p c then let (a, r) := span p d' in (c :: a, r) else ([], d)
  end.

(** [d.split(None, maxsplit)]: words separated by runs of whitespace; after
    [maxsplit] words what is left, less its leading whitespace, is the last
    item (trailing whitespace kept), unless it is empty. *)
Fixpoint split_ws (maxsplit : nat) (d : bytes) : list bytes :=
  match lstrip d with
  | [] => []
  | c :: d' =>
      match maxsplit with
      | O => [c :: d']
      | S m =>
          let (w, r) := span (fun x => negb (isspace x)) (c :: d') in
          w :: split_ws m r
      end
  end.

(** [d.split(sep, 1)] for a one-byte separator. *)
Fixpoint split_once (sep : byte) (d : bytes) : list bytes :=
  match d with
  | [] => [[]]
  | c :: d' =>
      if Byte.eqb c sep then [[]; d']
      else match split_once sep d' with
           | h :: t => (c :: h) :: t
           | [] => [[c]]
           end
  end.

(** [int(d)] in base ten: surrounding whitespace, one optional sign, digits
    with single underscores between them; [None] stands for [ValueError]. *)
Fixpoint int_digits (after_digit : bool) (acc : Z) (d : bytes) : option Z :=
  match d with
  | [] => if after_digit then Some acc else None
  | c :: d' =>
      if isdigit c then int_digits true (10 * acc + (Z.of_N (ord c) - 48)) d'
      else if Byte.eqb c x5f && after_digit then int_digits false acc d'
      else None
  end.

Definition int (d : bytes) : option Z :=
  match strip d with
  | [] => None
  | c :: d' =>
      if Byte.eqb c x2d then option_map Z.opp (int_digits false 0 d')
      else if Byte.eqb c x2b then int_digits false 0 d'
      else int_digits false 0 (c :: d')
  end.

(** [repr(d)], which is what [%s] prints for a bytes argument. *)
Definition hexdigit (n : N) : ascii :=
  ascii_of_N (if (n <? 10)%N then 48 + n else 87 + n)%N.

Definition char (c : byte) : string := String (ascii_of_byte c) EmptyString.

Definition repr_byte (quote c : byte) : string :=
  let n := ord c in
  if Byte.eqb c quote || Byte.eqb c x5c then char x5c +:+ char c
  else if (n =? 9)%N then "\t"
  else if (n =? 10)%N then "\n"
  else if (n =? 13)%N then "\r"
  else if ((n <? 32) || (127 <=? n))%N then
    "\x" +:+ String (hexdigit (n / 16)) (String (hexdigit (n mod 16)) EmptyString)
  else char c.

Definition repr (d : bytes) : string :=
  let quote :=
    if existsb (Byte.eqb x27) d && negb (existsb (Byte.eqb x22) d)
    then x22 else x27 in
  "b" +:+ char quote +:+ String.concat "" (map (repr_byte quote) d) +:+ char quote.

(** [str(n)] for an integer. *)
Definition str_of_int (n : Z) : string := NilZero.string_of_int (Z.to_int n).

End PyBytes.

(** ** Python values and exceptions shared by the modules *)

Module Py.
Import PyBytes.

(** The values that reach a comparison or a [%] format in the sources. *)
Inductive pyval :=
| VBytes (x : bytes)
| VStr (s : string)
| VInt (n : Z).

(** [a == b]: a [bytes] object and a [str] object are never equal. *)
Definition py_eq (a c : pyval) : bool :=
  match a, c with
  | VBytes x, VBytes y => bytes_eqb x y
  | VStr s, VStr t => String.eqb s t
  | VInt n, VInt m => n =? m
  | _, _ => false
  end.

Inductive exn :=
| HttpParserError (arg : pyval)
| HttpParserInvalidMethodError (arg : pyval)
| HttpParserInvalidStatusError (arg : pyval)
| ValueError (msg : string)
| TypeError (msg : string)
| AttributeError (msg : string)
| RuntimeError (msg : string).

(** [str(v)] as [%s] prints it. *)
Definition py_str (v : pyval) : string :=
  match v with
  | VBytes x => repr x
  | VStr s => s
  | VInt n => str_of_int n
  end.

(** [fmt % args]. The sources use the conversion [%s] only; [%%] is the
    literal percent sign, a [%] that ends the format is Python's
    [ValueError: incomplete format]. *)
Fixpoint str_mod (fmt : string) (args : list pyval) : exn + string :=
  match fmt with
  | EmptyString =>
      match args with
      | [] => inr EmptyString
      | _ :: _ =>
          inl (TypeError "not all arguments converted during string formatting")
      end
  | String "%"%char EmptyString => inl (ValueError "incomplete format")
  | String "%"%char (String "%"%char rest) =>
      match str_mod rest args with
      | inr s => inr (String "%"%char s)
      | inl e => inl e
      end
  | String "%"%char (String "s"%char rest) =>
      match args with
      | [] => inl (TypeError "not enough arguments for format string")
      | v :: args' =>
          match str_mod rest args' with
          | inr s => inr (py_str v +:+ s)
          | inl e => inl e
          end
      end
  | String "%"%char (String _ _) =>
      inl (ValueError "unsupported format character")
  | String c rest =>
      match str_mod rest args with
      | inr s => inr (String c s)
      | inl e => inl e
      end
  end.

Definition lower_ascii (c : ascii) : ascii :=
  let n := N_of_ascii c in
  if ((65 <=? n) && (n <=? 90))%N then ascii_of_N (n + 32) else c.

Fixpoint str_lower (s : string) : string :=
  match s with
  | EmptyString => EmptyString
  | String c s' => String (lower_ascii c) (str_lower s')
  end.

(** [v.lower()]; an [int] has no such method. *)
Definition py_lower (v : pyval) : exn + pyval :=
  match v with
  | VBytes x => inr (VBytes (lower x))
  | VStr s => inr (VStr (str_lower s))
  | VInt _ => inl (AttributeError "'int' object has no attribute 'lower'")
  end.

End Py.

(** ** [pulsar/utils/http/parser.py] *)

Module Http.
Import PyBytes Py.

(** *** The compiled patterns, as [pattern.match] uses them *)

(** [METHOD_RE = [A-Z0-9$-_.]{3,20}]: only the truth value of the match is
    used, and a match exists as soon as three bytes of the class lead. *)
Definition method_char (c : byte) : bool :=
  let n := ord c in
  isupper c || isdigit c || ((36 <=? n) && (n <=? 95))%N || Byte.eqb c x2e.

Definition METHOD_RE_match (d : bytes) : bool :=
  match d with
  | c1 :: c2 :: c3 :: _ => method_char c1 && method_char c2 && method_char c3
  | _ => false
  end.

(** [VERSION_RE = HTTP/(\d+).(\d+)]. The dot is any byte but a line feed,
    so the first group backtracks from the longest run of digits: with
    [k] digits in group 1 the next byte is the dot and digits must follow. *)
Fixpoint version_try (k : nat) (s : bytes) : option (bytes * bytes) :=
  match k with
  | O => None
  | S k' =>
      match skipn k s with
      | c :: t =>
          let g2 := fst (span isdigit t) in
          if negb (Byte.eqb c LF) && negb (bytes_eqb g2 [])
          then Some (firstn k s, g2)
          else version_try k' s
      | [] => version_try k' s
      end
  end.

Definition VERSION_RE_match (d : bytes) : option (bytes * bytes) :=
  if startswith d (b "HTTP/") then
    let s := skipn 5 d in
    version_try (List.length (fst (span isdigit s))) s
  else None.

(** [STATUS_RE]: a group of exactly three digits, any run of whitespace,
    then a group holding the (possibly empty) run of word bytes. *)
Definition STATUS_RE_match (d : bytes) : option (bytes * bytes) :=
  match d with
  | c1 :: c2 :: c3 :: rest =>
      if isdigit c1 && isdigit c2 && isdigit c3
      then Some ([c1; c2; c3], fst (span isword (lstrip rest)))
      else None
  | _ => None
  end.

(** *** Constants *)

Inductive ParserType := HTTP_REQUEST | HTTP_RESPONSE | HTTP_BOTH.

Definition ParserType_eqb (x y : ParserType) : bool :=
  match x, y with
  | HTTP_REQUEST, HTTP_REQUEST
  | HTTP_RESPONSE, HTTP_RESPONSE
  | HTTP_BOTH, HTTP_BOTH => true
  | _, _ => false
  end.

(** [class F(Enum)]: the [.value] of each member. *)
Module F.
Definition CHUNKED : Z := Z.shiftl 1 0.
Definition CONNECTION_KEEP_ALIVE : Z := Z.shiftl 1 1.
Definition CONNECTION_CLOSE : Z := Z.shiftl 1 2.
Definition CONNECTION_UPGRADE : Z := Z.shiftl 1 3.
Definition TRAILING : Z := Z.shiftl 1 4.
Definition UPGRADE : Z := Z.shiftl 1 5.
Definition SKIPBODY : Z := Z.shiftl 1 6.
Definition CONTENTLENGTH : Z := Z.shiftl 1 7.
End F.

(** [sys.maxsize] of a 64-bit CPython. *)
Definition sys_maxsize : Z := 2 ^ 63 - 1.

(** *** The parser object *)

(** The class whose [parse_first_line] an instance is bound to; the base
    class [HttpParser] defines none. *)
Inductive ParserClass := HttpParser_cls | HttpRequestParser_cls | HttpResponseParser_cls.

(** The attributes the class body and [__init__] create, plus
    [_HttpParser__on_message_complete], which [feed_data] assigns. The
    [_on_*] callback slots are the constructors of [callback] below. *)
Record HttpParser := mkHttpParser {
  cls : ParserClass;
  status : option bytes;
  status_code : option Z;
  reason : option bytes;
  method : option bytes;
  version_minor : option Z;
  version_major : option Z;
  version : option string;
  content_length : Z;
  errno : option Z;
  errstr : string;
  type : ParserType;
  buf : bytes;
  flags : Z;
  _position : Z;
  _clen_rest : Z;
  __on_message_complete : bool
}.

(** [HttpParser.__init__]: class attributes keep their defaults. *)
Definition init (c : ParserClass) (ty : ParserType) : HttpParser :=
  {| cls := c;
     status := None; status_code := None; reason := None; method := None;
     version_minor := None; version_major := None; version := None;
     content_length := sys_maxsize;
     errno := None; errstr := ""; type := ty; buf := []; flags := 0;
     _position := 0; _clen_rest := sys_maxsize;
     __on_message_complete := false |}.

Definition new_HttpParser (ty : ParserType) : HttpParser := init HttpParser_cls ty.
Definition new_HttpRequestParser : HttpParser := init HttpRequestParser_cls HTTP_REQUEST.
Definition new_HttpResponseParser : HttpParser := init HttpResponseParser_cls HTTP_RESPONSE.

(** Attribute assignment, one setter per attribute that is assigned. *)
Definition set_status v p :=
  mkHttpParser (cls p) v (status_code p) (reason p) (method p) (version_minor p)
    (version_major p) (version p) (content_length p) (errno p) (errstr p) (type p)
    (buf p) (flags p) (_position p) (_clen_rest p) (__on_message_complete p).
Definition set_status_code v p :=
  mkHttpParser (cls p) (status p) v (reason p) (method p) (version_minor p)
    (version_major p) (version p) (content_length p) (errno p) (errstr p) (type p)
    (buf p) (flags p) (_position p) (_clen_rest p) (__on_message_complete p).
Definition set_reason v p :=
  mkHttpParser (cls p) (status p) (status_code p) v (method p) (version_minor p)
    (version_major p) (version p) (content_length p) (errno p) (errstr p) (type p)
    (buf p) (flags p) (_position p) (_clen_rest p) (__on_message_complete p).
Definition set_method v p :=
  mkHttpParser (cls p) (status p) (status_code p) (reason p) v (version_minor p)
    (version_major p) (version p) (content_length p) (errno p) (errstr p) (type p)
    (buf p) (flags p) (_position p) (_clen_rest p) (__on_message_complete p).
Definition set_version_minor v p :=
  mkHttpParser (cls p) (status p) (status_code p) (reason p) (method p) v
    (version_major p) (version p) (content_length p) (errno p) (errstr p) (type p)
    (buf p) (flags p) (_position p) (_clen_rest p) (__on_message_complete p).
Definition set_version_major v p :=
  mkHttpParser (cls p) (status p) (status_code p) (reason p) (method p) (version_minor p)
    v (version p) (content_length p) (errno p) (errstr p) (type p)
    (buf p) (flags p) (_position p) (_clen_rest p) (__on_message_complete p).
Definition set_version v p :=
  mkHttpParser (cls p) (status p) (status_code p) (reason p) (method p) (version_minor p)
    (version_major p) v (content_length p) (errno p) (errstr p) (type p)
    (buf p) (flags p) (_position p) (_clen_rest p) (__on_message_complete p).
Definition set_content_length v p :=
  mkHttpParser (cls p) (status p) (status_code p) (reason p) (method p) (version_minor p)
    (version_major p) (version p) v (errno p) (errstr p) (type p)
    (buf p) (flags p) (_position p) (_clen_rest p) (__on_message_complete p).
Definition set_buf v p :=
  mkHttpParser (cls p) (status p) (status_code p) (reason p) (method p) (version_minor p)
    (version_major p) (version p) (content_length p) (errno p) (errstr p) (type p)
    v (flags p) (_position p) (_clen_rest p) (__on_message_complete p).
Definition set_flags v p :=
  mkHttpParser (cls p) (status p) (status_code p) (reason p) (method p) (version_minor p)
    (version_major p) (version p) (content_length p) (errno p) (errstr p) (type p)
    (buf p) v (_position p) (_clen_rest p) (__on_message_complete p).
Definition set__position v p :=
  mkHttpParser (cls p) (status p) (status_code p) (reason p) (method p) (version_minor p)
    (version_major p) (version p) (content_length p) (errno p) (errstr p) (type p)
    (buf p) (flags p) v (_clen_rest p) (__on_message_complete p).
Definition set__clen_rest v p :=
  mkHttpParser (cls p) (status p) (status_code p) (reason p) (method p) (version_minor p)
    (version_major p) (version p) (content_length p) (errno p) (errstr p) (type p)
    (buf p) (flags p) (_position p) v (__on_message_complete p).
Definition set___on_message_complete v p :=
  mkHttpParser (cls p) (status p) (status_code p) (reason p) (method p) (version_minor p)
    (version_major p) (version p) (content_length p) (errno p) (errstr p) (type p)
    (buf p) (flags p) (_position p) (_clen_rest p) v.

(** *** Calls into the protocol and the state-and-exception monad *)

(** The callbacks [__init__] takes from the protocol ([passthrough] when the
    protocol lacks one); invoking a slot is recorded. *)
Inductive callback :=
| on_url (url : bytes)
| on_status (line : bytes)
| on_header (name value : bytes)
| on_headers_complete
| on_message_begin
| on_message_complete
| on_body (data : bytes).

Record world := mkWorld { self : HttpParser; calls : list callback }.

(** What running a method gives: a returned value, an exception that left
    the method, or a loop that used up its fuel. The first two keep the
    object as the method left it. *)
Inductive outcome (A : Type) :=
| Return (a : A) (w : world)
| Raise (e : exn) (w : world)
| OutOfFuel.
Arguments Return {A} a w.
Arguments Raise {A} e w.
Arguments OutOfFuel {A}.

Definition M (A : Type) : Type := world -> outcome A.

Definition ret {A} (a : A) : M A := fun w => Return a w.

Definition bind {A B} (m : M A) (k : A -> M B) : M B :=
  fun w =>
    match m w with
    | Return a w' => k a w'
    | Raise e w' => Raise e w'
    | OutOfFuel => OutOfFuel
    end.

Definition raise {A} (e : exn) : M A := fun w => Raise e w.

Definition get : M HttpParser := fun w => Return (self w) w.

Definition assign (f : HttpParser -> HttpParser) : M unit :=
  fun w => Return tt (mkWorld (f (self w)) (calls w)).

Definition call (c : callback) : M unit :=
  fun w => Return tt (mkWorld (self w) (calls w ++ [c])).

Definition lift {A} (r : exn + A) : M A :=
  match r with
  | inr a => ret a
  | inl e => raise e
  end.

Declare Scope py_scope.
Delimit Scope py_scope with py.
Notation "x <- c ;; k" := (bind c (fun x => k))
  (at level 100, c at next level, k at level 200, right associativity) : py_scope.
Notation "c ;; k" := (bind c (fun _ => k))
  (at level 100, k at level 200, right associativity) : py_scope.
Local Open Scope py_scope.

(** [int(x)] raising [ValueError]. *)
Definition py_int (x : bytes) : M Z :=
  match int x with
  | Some n => ret n
  | None => raise (ValueError "invalid literal for int() with base 10")
  end.

(** *** Predicates *)

Definition get_http_version (p : HttpParser) : option string := version p.

(** [x > 0] for an attribute that is [None] until the first line is
    parsed: ordering [None] against an integer is a [TypeError]. *)
Definition gt0 (x : option Z) : exn + bool :=
  match x with
  | Some n => inr (0 <? n)
  | None => inl (TypeError "'>' not supported between instances of 'NoneType' and 'int'")
  end.

(** Truth value of an integer. *)
Definition truthy (n : Z) : bool := negb (n =? 0).

Definition http_message_needs_eof (p : HttpParser) : exn + bool :=
  if ParserType_eqb (type p) HTTP_REQUEST then inr false
  else
    match status_code p with
    | None => inl (TypeError "unsupported operand type(s) for //: 'NoneType' and 'int'")
    | Some code =>
        if (code / 100 =? 1) || (code =? 204) || (code =? 304)
           || truthy (Z.land (flags p) F.SKIPBODY)
        then inr false
        else if truthy (Z.land (flags p) F.CHUNKED)
                || negb (content_length p =? sys_maxsize)
        then inr false
        else inr true
    end.

(** [self.version_major > 0 and self.version_minor > 0]: the right operand
    is evaluated only when the left one is true. *)
Definition version_above_1_0 (p : HttpParser) : exn + bool :=
  match gt0 (version_major p) with
  | inr true => gt0 (version_minor p)
  | r => r
  end.

Definition should_keep_alive (p : HttpParser) : exn + bool :=
  let last :=
    match http_message_needs_eof p with
    | inr r => inr (negb r)
    | inl e => inl e
    end in
  match version_above_1_0 p with
  | inl e => inl e
  | inr true =>
      if truthy (Z.land (flags p) F.CONNECTION_CLOSE) then inr false
      else last
  | inr false =>
      if truthy (Z.land (flags p) F.CONNECTION_KEEP_ALIVE) then inr false
      else last
  end.

Definition is_headers_complete (p : HttpParser) : bool := 1 <? _position p.

Definition is_message_complete (p : HttpParser) : bool := 2 <? _position p.

(** *** [parse_first_line] *)

(** Assigning the version attributes from the two groups of [VERSION_RE]. *)
Definition assign_version (g1 g2 : bytes) : M unit :=
  major <- py_int g1 ;;
  assign (set_version_major (Some major)) ;;
  minor <- py_int g2 ;;
  assign (set_version_minor (Some minor)) ;;
  v <- lift (str_mod "%s.%s" [VInt major; VInt minor]) ;;
  assign (set_version (Some v)).

(** [HttpRequestParser.parse_first_line]. *)
Definition request_parse_first_line (line : bytes) : M unit :=
  match split_ws 2 line with
  | [bits0; bits1; bits2] =>
      if negb (METHOD_RE_match bits0) then
        msg <- lift (str_mod "invalid Method: %s" [VBytes bits0]) ;;
        raise (HttpParserInvalidMethodError (VStr msg))
      else
        assign (set_method (Some (upper bits0))) ;;
        call (on_url bits1) ;;
        match VERSION_RE_match bits2 with
        | None =>
            msg <- lift (str_mod "Invalid HTTP version: %s" [VBytes bits2]) ;;
            raise (HttpParserError (VStr msg))
        | Some (g1, g2) => assign_version g1 g2
        end
  | _ => raise (HttpParserError (VBytes line))
  end.

(** [HttpResponseParser.parse_first_line]. The message of the invalid-status
    error is the source's ["Invalid status %" % bits[1]], evaluated before
    the exception object can be built. *)
Definition response_parse_first_line (line : bytes) : M unit :=
  match split_ws 1 line with
  | [bits0; bits1] =>
      match VERSION_RE_match bits0 with
      | None =>
          msg <- lift (str_mod "Invalid HTTP version: %s" [VBytes bits0]) ;;
          raise (HttpParserError (VStr msg))
      | Some (g1, g2) =>
          match STATUS_RE_match bits1 with
          | None =>
              msg <- lift (str_mod "Invalid status %" [VBytes bits1]) ;;
              raise (HttpParserInvalidStatusError (VStr msg))
          | Some (s1, s2) =>
              call (on_status bits1) ;;
              assign_version g1 g2 ;;
              assign (set_status (Some bits1)) ;;
              code <- py_int s1 ;;
              assign (set_status_code (Some code)) ;;
              assign (set_reason (Some s2))
          end
      end
  | _ => raise (HttpParserError (VBytes line))
  end.

(** Method lookup on the instance's class. *)
Definition parse_first_line (line : bytes) : M unit :=
  p <- get ;;
  match cls p with
  | HttpRequestParser_cls => request_parse_first_line line
  | HttpResponseParser_cls => response_parse_first_line line
  | HttpParser_cls =>
      raise (AttributeError "'HttpParser' object has no attribute 'parse_first_line'")
  end.

(** *** Headers *)

(** [_connection]: the lowered value is compared with the [str] literals
    of the source. *)
Definition _connection (value : pyval) : M unit :=
  value <- lift (py_lower value) ;;
  if py_eq value (VStr "keep-alive") then
    assign (fun p => set_flags (Z.lor (flags p) F.CONNECTION_KEEP_ALIVE) p)
  else if py_eq value (VStr "close") then
    assign (fun p => set_flags (Z.lor (flags p) F.CONNECTION_CLOSE) p)
  else if py_eq value (VStr "upgrade") then
    assign (fun p => set_flags (Z.lor (flags p) F.CONNECTION_UPGRADE) p)
  else ret tt.

(** What the statements after [self._on_header(name, value)] do to a header;
    [continue] and falling off the [if] chain both go to the next line. *)
Definition header_effect (name value : bytes) : M unit :=
  let name := lower name in
  if bytes_eqb name (b "connection") then _connection (VBytes value)
  else if bytes_eqb name (b "content-length") then
    match int value with
    | None => ret tt
    | Some n =>
        assign (set_content_length n) ;;
        if n <? 0 then assign (set_content_length sys_maxsize) else ret tt
    end
  else if bytes_eqb name (b "transfer-encoding") then
    if bytes_eqb (lower value) (b "chunked") then
      assign (fun p => set_flags (Z.lor (flags p) F.CHUNKED) p)
    else ret tt
  else ret tt.

(** The [while True] of [_parse_headers]. The value is the method's return
    value: [Some false] for [return False], [None] for running off the end
    of the method after the [break]. *)
Fixpoint headers_loop (fuel : nat) : M (option bool) :=
  match fuel with
  | O => fun _ => OutOfFuel
  | S fuel' =>
      p <- get ;;
      let idx := find (buf p) CRLF in
      if idx <? 0 then ret (Some false)
      else
        let chunk := slice_to idx (buf p) in
        assign (set_buf (slice_from (idx + 2) (buf p))) ;;
        if idx =? 0 then
          p <- get ;;
          assign (set__clen_rest (content_length p)) ;;
          assign (set__position 2) ;;
          call on_headers_complete ;;
          ret None
        else if find chunk (b ":") <? 0 then headers_loop fuel'
        else
          match split_once ":"%byte chunk with
          | [name; value] =>
              let value := lstrip value in
              let name := strip (rstrip_chars [x20; x09] name) in
              call (on_header name value) ;;
              header_effect name value ;;
              headers_loop fuel'
          | _ => raise (ValueError "not enough values to unpack (expected 2)")
          end
  end.

(** Every turn of the loop that goes on removes a line and its CRLF from
    [buf], so one more turn than [buf] has bytes is enough. *)
Definition _parse_headers : M (option bool) :=
  fun w => headers_loop (S (List.length (buf (self w)))) w.

(** *** Body *)

(** [_parse_body] opens with [data = b''.join(self._buf)]. No statement of
    the module creates an attribute [_buf] before that line (the buffer
    [__init__] creates is [buf]; the only assignment to [_buf] is further
    down in this very method), so the attribute lookup raises and nothing
    else of the method runs. The same holds for [_chunked], [_clen] and
    [_status], which the method reads next and nothing assigns. *)
Definition _parse_body : M (option Z) :=
  raise (AttributeError "'HttpParser' object has no attribute '_buf'").

(** *** [feed_data] *)

(** Truth value of what [_parse_headers] returns. *)
Definition truthy_ret (r : option bool) : bool :=
  match r with
  | Some x => x
  | None => false
  end.

(** The [while True] of [feed_data]; the value is what [feed_data] returns
    ([None], or the negative [ret]). *)
Fixpoint feed_loop (fuel : nat) : M (option Z) :=
  match fuel with
  | O => fun _ => OutOfFuel
  | S fuel' =>
      p <- get ;;
      if _position p =? 0 then
        let idx := find (buf p) CRLF in
        if idx <? 0 then ret None
        else
          assign (set__position 1) ;;
          parse_first_line (slice_to idx (buf p)) ;;
          assign (fun p => set_buf (slice_from (idx + 2) (buf p)) p) ;;
          feed_loop fuel'
      else if negb (is_headers_complete p) then
        r <- _parse_headers ;;
        if negb (truthy_ret r) then ret None else feed_loop fuel'
      else if negb (is_message_complete p) then
        r <- _parse_body ;;
        match r with
        | None => ret None
        | Some n =>
            if n <? 0 then ret (Some n)
            else if n =? 0 then
              assign (set___on_message_complete true) ;;
              call on_message_complete ;;
              ret None
            else feed_loop fuel'
        end
      else feed_loop fuel'
  end.

Definition feed_data (fuel : nat) (data : bytes) : M (option Z) :=
  match data with
  | [] =>
      p <- get ;;
      (if negb (is_message_complete p) then
         assign (set__position 3) ;;
         call on_message_complete
       else ret tt) ;;
      ret None
  | _ :: _ =>
      assign (fun p => set_buf (buf p ++ data) p) ;;
      feed_loop fuel
  end.

(** A parser attached to a protocol that has received no call yet. *)
Definition fresh (p : HttpParser) : world := mkWorld p [].

(** *** Inputs and predicates of the properties below *)

(** The request of the round-trip property. *)
Definition request : bytes :=
  b "GET /x HTTP/1.1" ++ CRLF ++ b "Host: a" ++ CRLF
    ++ b "Content-Length: 5" ++ CRLF ++ CRLF ++ b "hello".

(** An HTTP/1.0 response with a declared length and no [Connection] header. *)
Definition response_1_0 : bytes :=
  b "HTTP/1.0 200 OK" ++ CRLF ++ b "Content-Length: 5" ++ CRLF ++ CRLF.

(** A response whose status is not three digits. *)
Definition bad_status : bytes := b "HTTP/1.1 XYZ" ++ CRLF.

(** A request with a [Connection: close] header. *)
Definition request_close : bytes :=
  b "GET / HTTP/1.1" ++ CRLF ++ b "Connection: close" ++ CRLF ++ CRLF.

(** A request parser after the end of the message was signalled by an
    empty [feed_data]. *)
Definition after_eof : world :=
  mkWorld (set__position 3 new_HttpRequestParser) [on_message_complete].

(** [stable m]: [m] returns or raises, and in both cases the buffer and the
    position are what they were. *)
Definition stable {A} (m : M A) : Prop :=
  forall w,
    match m w with
    | Return _ w' | Raise _ w' =>
        buf (self w') = buf (self w) /\ _position (self w') = _position (self w)
    | OutOfFuel => False
    end.

(** A callback that reports a body or the end of the message. *)
Definition reports_body (c : callback) : bool :=
  match c with
  | on_body _ | on_message_complete => true
  | _ => false
  end.

(** [silent m]: whatever [m] adds to the log of callbacks, it reports no
    body and no end of message. *)
Definition silent {A} (m : M A) : Prop :=
  forall w,
    match m w with
    | Return _ w' | Raise _ w' =>
        exists l, calls w' = calls w ++ l /\ existsb reports_body l = false
    | OutOfFuel => True
    end.

(** [keeps R m]: the parser with which [m] returns or raises is related by
    [R] to the parser it started from. *)
Definition keeps (R : HttpParser -> HttpParser -> Prop) {A} (m : M A) : Prop :=
  forall w,
    match m w with
    | Return _ w' | Raise _ w' => R (self w) (self w')
    | OutOfFuel => True
    end.

(** What no method changes: the parser type and class stay, a content length
    that is not negative stays so, and the flag set changes by the
    [CHUNKED] bit at most. *)
Definition frame (p p' : HttpParser) : Prop :=
  type p' = type p
  /\ cls p' = cls p
  /\ (0 <= content_length p -> 0 <= content_length p')
  /\ Z.lor (flags p') F.CHUNKED = Z.lor (flags p) F.CHUNKED.

(** The position is where it was or at 2. *)
Definition at_most_headers_done (p p' : HttpParser) : Prop :=
  _position p' = _position p \/ _position p' = 2.

(** The position after a call is the position before it or a later one. *)
Definition moved_forward (p p' : HttpParser) : Prop :=
  _position p <= _position p'
  /\ (_position p' = _position p \/ 1 <= _position p' <= 3).

(** The parser and its protocol after [feed_data(data)], whether the call
    returned or raised; nothing when the call does not come back. *)
Definition after_feed (fuel : nat) (data : bytes) (w : world) : option world :=
  match feed_data fuel data w with
  | Return _ w' | Raise _ w' => Some w'
  | OutOfFuel => None
  end.

(** The same after one [feed_data] call per item of [datas], in order. *)
Fixpoint after_feeds (fuel : nat) (datas : list bytes) (w : world) : option world :=
  match datas with
  | [] => Some w
  | data :: datas' =>
      match after_feed fuel data w with
      | Some w' => after_feeds fuel datas' w'
      | None => None
      end
  end.


End Http.

(** ** [pulsar/utils/pylib/events.py] *)

Module Events.
Import Py.

(** An object passed around by reference: the owner of an event, the [exc]
    and the [data] of a [fire]. [None] is the absence of an object, and
    [obj_truthy] is what [if obj:] sees. *)
Record pyobj := mkObj { obj_id : nat; obj_truthy : bool }.

(** A bound callback; [hnd_repr] is its [repr]. *)
Record handler := mkHandler { hnd_id : nat; hnd_repr : string }.

Definition handler_eqb (f g : handler) : bool :=
  Nat.eqb (hnd_id f) (hnd_id g) && String.eqb (hnd_repr f) (hnd_repr g).

(** A future of the event loop. *)
Record future := mkFuture { fut_id : nat }.

(** The keyword a handler is called with. *)
Inductive kwarg :=
| kw_exc (exc : pyobj)
| kw_data (data : pyobj)
| kw_none.

(** What an event does to its collaborators. *)
Inductive effect :=
| Called (hnd : handler) (o : pyobj) (kw : kwarg)
| set_exception (w : future) (exc : pyobj)
| set_result (w : future) (o : pyobj).

(** [__slots__ = ('name', '_onetime', '_handlers', '_waiter', '_self')] *)
Record Event := mkEvent {
  name : string;
  _onetime : Z;
  _self : option pyobj;
  _handlers : option (list handler);
  _waiter : option future
}.

(** [Event.__init__(name, o, onetime)] *)
Definition init (name : string) (o : option pyobj) (onetime : Z) : Event :=
  {| name := name; _onetime := onetime; _self := o;
     _handlers := None; _waiter := None |}.

Definition set__handlers v (e : Event) : Event :=
  mkEvent (name e) (_onetime e) (_self e) v (_waiter e).
Definition set__self v (e : Event) : Event :=
  mkEvent (name e) (_onetime e) v (_handlers e) (_waiter e).
Definition set__waiter v (e : Event) : Event :=
  mkEvent (name e) (_onetime e) (_self e) (_handlers e) v.

Definition handlers (e : Event) : option (list handler) := _handlers e.

Definition onetime (e : Event) : bool := negb (_onetime e =? 0).

Definition fired (e : Event) : bool :=
  match _self e with
  | None => true
  | Some _ => false
  end.

(** [str(self)], that is ['%s: %s' % (self.name, self._handlers)]. *)
Definition repr_handlers (hs : option (list handler)) : string :=
  match hs with
  | None => "None"
  | Some l => "[" +:+ String.concat ", " (map hnd_repr l) +:+ "]"
  end.

Definition __repr__ (e : Event) : string :=
  name e +:+ ": " +:+ repr_handlers (_handlers e).

(** [bind]: the list is created on the first binding, then appended to. *)
Definition bind (callback : handler) (e : Event) : exn + Event :=
  match _self e with
  | None => inl (RuntimeError (__repr__ e +:+ " already fired, cannot add callbacks"))
  | Some _ =>
      match _handlers e with
      | None => inr (set__handlers (Some ([] ++ [callback])) e)
      | Some hs => inr (set__handlers (Some (hs ++ [callback])) e)
      end
  end.

Definition clear (e : Event) : Event := set__handlers None e.

(** [unbind]: returns the number of callbacks removed. *)
Definition unbind (callback : handler) (e : Event) : Event * Z :=
  match _handlers e with
  | Some (h :: hs) =>
      let filtered_callbacks :=
        filter (fun f => negb (handler_eqb f callback)) (h :: hs) in
      let removed_count :=
        Z.of_nat (List.length (h :: hs)) - Z.of_nat (List.length filtered_callbacks) in
      if removed_count =? 0 then (e, removed_count)
      else (set__handlers (Some filtered_callbacks) e, removed_count)
  | _ => (e, 0)
  end.

(** What a [fire] leaves behind: the event, what it did, and the exception
    of a handler that raised, if one did. *)
Record fire_result := mkFired {
  after : Event;
  effects : list effect;
  raised : option exn
}.

Section Fire.

(** What a handler does when it is called: [None] when it returns, the
    exception when it raises. *)
Variable behaviour : handler -> pyobj -> kwarg -> option exn.

(** [for hnd in handlers: hnd(o, ...)], stopped by the first exception. *)
Fixpoint call_all (hs : list handler) (o : pyobj) (kw : kwarg)
  : list effect * option exn :=
  match hs with
  | [] => ([], None)
  | hnd :: hs' =>
      match behaviour hnd o kw with
      | Some e => ([Called hnd o kw], Some e)
      | None =>
          let (l, r) := call_all hs' o kw in
          (Called hnd o kw :: l, r)
      end
  end.

Definition fire (exc data : option pyobj) (e : Event) : fire_result :=
  match _self e with
  | None => mkFired e [] None
  | Some o =>
      let handlers := _handlers e in
      let e := if onetime e then set__self None (set__handlers None e) else e in
      let kw :=
        match exc, data with
        | Some x, _ => kw_exc x
        | None, Some d => kw_data d
        | None, None => kw_none
        end in
      let (called, r) :=
        match handlers with
        | Some (h :: hs) => call_all (h :: hs) o kw
        | _ => ([], None)
        end in
      match r with
      | Some err => mkFired e called (Some err)
      | None =>
          match _waiter e with
          | None => mkFired e called None
          | Some w =>
              let resolved :=
                match exc with
                | Some x => if obj_truthy x then set_exception w x else set_result w o
                | None => set_result w o
                end in
              mkFired (set__waiter None e) (called ++ [resolved]) None
          end
      end
  end.

End Fire.

(** [waiter]: [created] is the future [create_future()] would return. *)
Definition waiter (created : future) (e : Event) : Event * future :=
  match _waiter e with
  | Some w => (e, w)
  | None => (set__waiter (Some created) e, created)
  end.

(** *** The life of an event *)

(** One call on an event by its users. *)
Inductive op :=
| op_bind (callback : handler)
| op_unbind (callback : handler)
| op_clear
| op_waiter (created : future)
| op_fire (exc data : option pyobj).

Definition is_fire (o : op) : bool :=
  match o with
  | op_fire _ _ => true
  | _ => false
  end.

(** The event after one call. A [bind] that raises leaves it as it was; a
    [fire] whose handler raises leaves it as [fire] had made it by then. *)
Definition step (behaviour : handler -> pyobj -> kwarg -> option exn)
    (e : Event) (o : op) : Event :=
  match o with
  | op_bind callback =>
      match bind callback e with
      | inr e' => e'
      | inl _ => e
      end
  | op_unbind callback => fst (unbind callback e)
  | op_clear => clear e
  | op_waiter created => fst (waiter created e)
  | op_fire exc data => after (fire behaviour exc data e)
  end.

(** The event after a sequence of calls, oldest first. *)
Definition history (behaviour : handler -> pyobj -> kwarg -> option exn)
    (ops : list op) (e : Event) : Event :=
  fold_left (step behaviour) ops e.

(** *** Inputs and predicates of the properties below *)

(** The handler list after a successful [bind]. *)
Definition appended (callback : handler) (e : Event) : Event :=
  set__handlers
    (Some (match _handlers e with Some hs => hs | None => [] end ++ [callback])) e.

(** An owner, two callbacks, and the one-time event of that owner once the
    first callback is bound and a waiter was asked for. *)
Definition owner : pyobj := mkObj 1 true.
Definition on_start : handler := mkHandler 7 "<function on_start>".
Definition late : handler := mkHandler 8 "<function late>".

Definition started : Event :=
  {| name := "start"; _onetime := 1; _self := Some owner;
     _handlers := Some [on_start];
     _waiter := Some (mkFuture 3) |}.

(** Handlers that return. *)
Definition quiet (h : handler) (o : pyobj) (kw : kwarg) : option exn := None.

(** The bound callbacks as a list, empty when nothing was ever bound. *)
Definition handlers_list (e : Event) : list handler :=
  match _handlers e with
  | Some hs => hs
  | None => []
  end.

(** How often [callback] is bound. *)
Definition times_bound (callback : handler) (e : Event) : Z :=
  Z.of_nat (List.length (filter (handler_eqb callback) (handlers_list e))).

(** The keyword [fire] passes to the handlers: [exc] when it is given,
    otherwise [data] when it is given. *)
Definition kwarg_of (exc data : option pyobj) : kwarg :=
  match exc, data with
  | Some x, _ => kw_exc x
  | None, Some d => kw_data d
  | None, None => kw_none
  end.

(** How [fire] resolves a pending waiter. *)
Definition resolution (w : future) (exc : option pyobj) (o : pyobj) : effect :=
  match exc with
  | Some x => if obj_truthy x then set_exception w x else set_result w o
  | None => set_result w o
  end.

(** Every event of a registry still has its owner. *)
Definition all_have_owner (d : list (string * Event)) : Prop :=
  forall k e, In (k, e) d -> _self e <> None.

(** *** [EventHandler] *)

(** A [dict] from names to events, in insertion order. *)
Fixpoint dict_get (k : string) (d : list (string * Event)) : option Event :=
  match d with
  | [] => None
  | (k', v) :: d' => if String.eqb k' k then Some v else dict_get k d'
  end.

(** [d[k] = v]: the value of a present key is replaced where it is, a new
    key goes to the end. *)
Fixpoint dict_set (k : string) (v : Event) (d : list (string * Event))
  : list (string * Event) :=
  match d with
  | [] => [(k, v)]
  | (k', v') :: d' =>
      if String.eqb k' k then (k', v) :: d' else (k', v') :: dict_set k v d'
  end.

(** An object of a class that mixes [EventHandler] in: the object itself,
    the class attribute [ONE_TIME_EVENTS] and the attribute [_events]. *)
Record EventHandler := mkEventHandler {
  this : pyobj;
  ONE_TIME_EVENTS : option (list string);
  _events : option (list (string * Event))
}.

Definition set__events v (h : EventHandler) : EventHandler :=
  mkEventHandler (this h) (ONE_TIME_EVENTS h) v.

(** [dict(((n, Event(n, self, 1)) for n in ot))] with
    [ot = self.ONE_TIME_EVENTS or ()]. *)
Definition one_time_registry (h : EventHandler) : list (string * Event) :=
  fold_left (fun d n => dict_set n (init n (Some (this h)) 1) d)
            (match ONE_TIME_EVENTS h with Some ot => ot | None => [] end) [].

(** [event(name)]: the handler afterwards and the event returned. *)
Definition event (name : string) (h : EventHandler) : EventHandler * Event :=
  let events :=
    match _events h with
    | Some d => d
    | None => one_time_registry h
    end in
  match dict_get name events with
  | Some e => (set__events (Some events) h, e)
  | None =>
      let e := init name (Some (this h)) 0 in
      (set__events (Some (dict_set name e events)) h, e)
  end.

(** [fire_event(name, exc, data)]: the handler afterwards, what the fire did
    and the exception of a handler that raised. *)
Definition fire_event (behaviour : handler -> pyobj -> kwarg -> option exn)
    (name : string) (exc data : option pyobj) (h : EventHandler)
  : EventHandler * list effect * option exn :=
  match _events h with
  | Some (x :: d) =>
      match dict_get name (x :: d) with
      | Some e =>
          let r := fire behaviour exc data e in
          (set__events (Some (dict_set name (after r) (x :: d))) h, effects r, raised r)
      | None => (h, [], None)
      end
  | _ => (h, [], None)
  end.

(** The loop of [bind_events] over [evs.values()]; a [bind] that raises ends
    it, with the earlier bindings made. *)
Fixpoint bind_events_loop (events : gmap string handler) (d : list (string * Event))
  : list (string * Event) * option exn :=
  match d with
  | [] => ([], None)
  | (k, e) :: d' =>
      match events !! name e with
      | Some callback =>
          match bind callback e with
          | inr e' =>
              let (d'', r) := bind_events_loop events d' in ((k, e') :: d'', r)
          | inl err => ((k, e) :: d', Some err)
          end
      | None =>
          let (d'', r) := bind_events_loop events d' in ((k, e) :: d'', r)
      end
  end.

Definition bind_events (events : gmap string handler) (h : EventHandler)
  : EventHandler * option exn :=
  match _events h with
  | Some (x :: d) =>
      if Nat.eqb (size events) 0 then (h, None)
      else
        let (d', r) := bind_events_loop events (x :: d) in
        (set__events (Some d') h, r)
  | _ => (h, None)
  end.

(** [for callback in event._handlers: ev.bind(callback)] *)
Fixpoint bind_all (callbacks : list handler) (ev : Event) : Event * option exn :=
  match callbacks with
  | [] => (ev, None)
  | callback :: rest =>
      match bind callback ev with
      | inr ev' => bind_all rest ev'
      | inl err => (ev, Some err)
      end
  end.

(** The loop of [copy_many_times_events] over [other._events.items()]. *)
Fixpoint copy_loop (others events : list (string * Event))
  : list (string * Event) * option exn :=
  match others with
  | [] => (events, None)
  | (name, event) :: rest =>
      match negb (onetime event), _handlers event with
      | true, Some (c :: cs) =>
          match dict_get name events with
          | Some ev =>
              let (ev', r) := bind_all (c :: cs) ev in
              let events' := dict_set name ev' events in
              match r with
              | Some err => (events', Some err)
              | None => copy_loop rest events'
              end
          | None => copy_loop rest events
          end
      | _, _ => copy_loop rest events
      end
  end.

(** [copy_many_times_events(other)], for an [other] that is another object
    than [self]. *)
Definition copy_many_times_events (other h : EventHandler)
  : EventHandler * option exn :=
  match _events h, _events other with
  | Some (x :: d), Some (y :: o) =>
      let (d', r) := copy_loop (y :: o) (x :: d) in
      (set__events (Some d') h, r)
  | _, _ => (h, None)
  end.


(** What [bind_events] does to one registered event. *)
Definition bound_from (events : gmap string handler) (e : Event) : Event :=
  match events !! name e with
  | Some callback => appended callback e
  | None => e
  end.

(** The names registered with a handler. *)
Definition registered (h : EventHandler) : list string :=
  match _events h with
  | Some d => map fst d
  | None => []
  end.

(** The event registered under a name, if any. *)
Definition lookup_event (name : string) (h : EventHandler) : option Event :=
  match _events h with
  | Some d => dict_get name d
  | None => None
  end.


Definition owner_B : EventHandler :=
  mkEventHandler (mkObj 2 true) (Some ["start"])
    (Some [("start", init "start" (Some (mkObj 2 true)) 1);
           ("ready", init "ready" (Some (mkObj 2 true)) 0)]).

End Events.

(** ** [pulsar/async/concurrency.py] *)

Module Spawner.
Import Py.

(** The handle [actor.proxy] gives. *)
Record proxy := mkProxy { proxy_aid : string }.

(** An actor as [make] sees one: [is_arbiter()], [.arbiter] and [.proxy]. *)
#[warnings="-register-all"]
Inductive Actor := mkActor {
  actor_aid : string;
  is_arbiter : bool;
  arbiter : option Actor;
  actor_proxy : proxy
}.

(** A value of the constructor arguments. *)
Inductive kwval :=
| KProxy (p : proxy)
| KActor (a : Actor)
| KNone
| KVal (v : pyval).

(** The three classes [concurrency] chooses from. *)
Inductive ConcurrencyClass := MonitorConcurrency | ActorThread | ActorProcess.

(** The instance [actor_class(self, **a_kwargs)] builds. *)
Record built_actor := mkBuilt {
  built_class : string;
  built_kwargs : gmap string kwval
}.

Record Concurrency := mkConcurrency {
  cls : ConcurrencyClass;
  aid : string;
  impl : string;
  commands_set : gset string;
  timeout : Z;
  actor_class : string;
  loglevel : kwval;
  a_kwargs : gmap string kwval;
  actor : option built_actor
}.

Definition set_a_kwargs v (d : Concurrency) : Concurrency :=
  mkConcurrency (cls d) (aid d) (impl d) (commands_set d) (timeout d)
    (actor_class d) (loglevel d) v (actor d).
Definition set_timeout v (d : Concurrency) : Concurrency :=
  mkConcurrency (cls d) (aid d) (impl d) (commands_set d) v
    (actor_class d) (loglevel d) (a_kwargs d) (actor d).
Definition set_actor v (d : Concurrency) : Concurrency :=
  mkConcurrency (cls d) (aid d) (impl d) (commands_set d) (timeout d)
    (actor_class d) (loglevel d) (a_kwargs d) v.

(** [Concurrency.process_actor], inherited by [ActorThread] and
    [ActorProcess]. *)
Definition Concurrency_process_actor (monitor : option Actor) (d : Concurrency)
  : exn + Concurrency :=
  match monitor with
  | None => inl (AttributeError "'NoneType' object has no attribute 'is_arbiter'")
  | Some m =>
      let arb := if is_arbiter m then Some m else arbiter m in
      match arb with
      | None => inl (AttributeError "'NoneType' object has no attribute 'proxy'")
      | Some a =>
          let d := set_a_kwargs (<["arbiter" := KProxy (actor_proxy a)]> (a_kwargs d)) d in
          inr (set_a_kwargs (<["monitor" := KProxy (actor_proxy m)]> (a_kwargs d)) d)
      end
  end.

Definition kw_of_actor (a : option Actor) : kwval :=
  match a with
  | Some x => KActor x
  | None => KNone
  end.

(** [MonitorConcurrency.process_actor], whose parameter the source names
    [arbiter]. *)
Definition MonitorConcurrency_process_actor (arbiter : option Actor) (d : Concurrency)
  : exn + Concurrency :=
  let d := set_a_kwargs (<["arbiter" := kw_of_actor arbiter]> (a_kwargs d)) d in
  let d := set_timeout 0 d in
  inr (set_actor (Some (mkBuilt (actor_class d) (a_kwargs d))) d).

Definition process_actor (monitor : option Actor) (d : Concurrency) : exn + Concurrency :=
  match cls d with
  | MonitorConcurrency => MonitorConcurrency_process_actor monitor d
  | ActorThread | ActorProcess => Concurrency_process_actor monitor d
  end.

(** [kwargs.pop('loglevel', None)] *)
Definition pop_loglevel (kwargs : gmap string kwval) : kwval * gmap string kwval :=
  match kwargs !! "loglevel" with
  | Some v => (v, delete "loglevel" kwargs)
  | None => (KNone, kwargs)
  end.

(** [cls.make]. [unique_id] is what [gen_unique_id()] returns; an [aid] that
    is [None] or empty is falsy. *)
Definition make (unique_id : string) (c : ConcurrencyClass) (kind : string)
    (actor_class : string) (timeout : Z) (monitor : option Actor)
    (aid : option string) (commands_set : gset string)
    (kwargs : gmap string kwval) : exn + Concurrency :=
  let aid :=
    match aid with
    | Some (String ch rest) => String ch rest
    | _ =>
        match monitor with
        | Some m => if is_arbiter m then "arbiter" else substring 0 8 unique_id
        | None => substring 0 8 unique_id
        end
    end in
  let (lvl, kwargs) := pop_loglevel kwargs in
  process_actor monitor
    {| cls := c; aid := aid; impl := kind; commands_set := commands_set;
       timeout := timeout; actor_class := actor_class; loglevel := lvl;
       a_kwargs := kwargs; actor := None |}.

(** [concurrency], the function the arbiter calls to spawn an actor. *)
Definition concurrency (unique_id : string) (kind : string) (actor_class : string)
    (timeout : Z) (monitor : option Actor) (aid : option string)
    (commands_set : gset string) (params : gmap string kwval)
  : exn + Concurrency :=
  if String.eqb kind "monitor" then
    make unique_id MonitorConcurrency kind actor_class timeout monitor aid commands_set params
  else if String.eqb kind "thread" then
    make unique_id ActorThread kind actor_class timeout monitor aid commands_set params
  else if String.eqb kind "process" then
    make unique_id ActorProcess kind actor_class timeout monitor aid commands_set params
  else
    match str_mod "Concurrency %s not supported by pulsar" [VStr kind] with
    | inr msg => inl (ValueError msg)
    | inl e => inl e
    end.

(** *** [ActorThread.terminate] *)

(** What [terminate] does to its surroundings. *)
Inductive effect :=
| stop (force : bool)
| sleep (seconds : Q).

(** The [while result.called: time.sleep(0.1)] loop. [called k] is what the
    attribute [result.called] holds the [k]-th time the loop reads it
    (counting from zero); the actor's own thread is what changes it. The
    value is the list of sleeps made before the loop ends, [None] when the
    fuel runs out first. *)
Fixpoint terminate_loop (called : nat -> bool) (fuel k : nat) : option (list effect) :=
  match fuel with
  | O => None
  | S fuel' =>
      if called k then
        match terminate_loop called fuel' (S k) with
        | Some l => Some (sleep (1 # 10)%Q :: l)
        | None => None
        end
      else Some []
  end.

Definition terminate (called : nat -> bool) (fuel : nat) : option (list effect) :=
  match terminate_loop called fuel 0 with
  | Some l => Some (stop true :: l)
  | None => None
  end.

(** *** Inputs and predicates of the properties below *)

(** The arbiter [Concurrency.process_actor] resolves from a monitor. *)
Definition arbiter_of (monitor : Actor) : option Actor :=
  if is_arbiter monitor then Some monitor else arbiter monitor.

(** The constructor arguments hold a proxy of the resolved arbiter and a
    proxy of the owning monitor. *)
Definition injects_both_proxies (monitor : Actor) (d : Concurrency) : Prop :=
  exists arb,
    arbiter_of monitor = Some arb
    /\ a_kwargs d !! "arbiter" = Some (KProxy (actor_proxy arb))
    /\ a_kwargs d !! "monitor" = Some (KProxy (actor_proxy monitor)).

(** The root supervising actor and a monitor under it. *)
Definition root : Actor :=
  {| actor_aid := "arbiter"; is_arbiter := true; arbiter := None;
     actor_proxy := mkProxy "arbiter" |}.

Definition pool : Actor :=
  {| actor_aid := "a1b2c3d4"; is_arbiter := false; arbiter := Some root;
     actor_proxy := mkProxy "a1b2c3d4" |}.

(** The descriptor [concurrency] returns for an in-process monitor spawned
    by [root] with no constructor arguments. *)
Definition monitor_descriptor : Concurrency :=
  {| cls := MonitorConcurrency; aid := "arbiter"; impl := "monitor";
     commands_set := ∅; timeout := 0; actor_class := "Monitor";
     loglevel := KNone;
     a_kwargs := {["arbiter" := KActor root]};
     actor := Some (mkBuilt "Monitor" {["arbiter" := KActor root]}) |}.

(** A stop whose result has not been delivered yet, and one whose result
    was delivered before the first look. *)
Definition not_delivered (k : nat) : bool := false.
Definition delivered (k : nat) : bool := true.

(** [ActorProxyMonitor(self)], the handle the owning monitor keeps. *)
Record ActorProxyMonitor := mkActorProxyMonitor { proxied : Concurrency }.

(** [proxy_monitor]: [MonitorConcurrency] overrides it to return [None]. *)
Definition proxy_monitor (d : Concurrency) : option ActorProxyMonitor :=
  match cls d with
  | MonitorConcurrency => None
  | ActorThread | ActorProcess => Some (mkActorProxyMonitor d)
  end.

(** The three kinds [concurrency] knows. *)
Definition supported (kind : string) : bool :=
  String.eqb kind "monitor" || String.eqb kind "thread" || String.eqb kind "process".

(** An [aid] argument that is true: a non-empty string. *)
Definition given_aid (aid : option string) : option string :=
  match aid with
  | Some (String ch rest) => Some (String ch rest)
  | _ => None
  end.

End Spawner.

(** ** [pulsar/apps/test/case.py] *)

Module TestCase.

(** The functions [run_test] hands to [run_test_function]. *)
Inductive hook := _pre_setup | setUp | testMethod | tearDown | _post_teardown.

(** One trace of a failure: [e = trace[1]] either is an instance of
    [test.failureException] or is not. *)
Record trace := mkTrace { trace_id : nat; is_failureException : bool }.

(** [outcome.result]: a failure (a sequence of traces) or any other value. *)
Inductive result :=
| Failure (traces : list trace)
| Value (v : nat).

(** The part of a test instance [run_test] looks at. An attribute that
    [getattr] would not find is [None]. *)
Record Test := mkTest {
  _testMethodName : string;
  class___unittest_skip__ : option bool;
  class___unittest_skip_why__ : option string;
  method___unittest_skip__ : option bool;
  method___unittest_skip_why__ : option string;
  has__pre_setup : bool;
  has__post_teardown : bool
}.

(** Calls on the runner and on the test, in the order they are made. *)
Inductive effect :=
| addSkip (reason : string)
| addSuccess
| addFailure (t : trace)
| addError (t : trace)
| ran (h : hook) (istest : bool)
| assign_result (r : result).

(** [getattr(obj, name, default)] *)
Definition getattr {A} (attr : option A) (default : A) : A :=
  match attr with
  | Some v => v
  | None => default
  end.

(** [a or b] on strings: [a] unless it is empty. *)
Definition or_str (a c : string) : string :=
  match a with
  | EmptyString => c
  | String _ _ => a
  end.

(** [add_failure]: the calls made on the runner and the returned flag. *)
Definition add_failure (failure : result) : list effect * bool :=
  match failure with
  | Failure traces =>
      (map (fun t => if is_failureException t then addFailure t else addError t) traces,
       true)
  | Value _ => ([], false)
  end.

Section RunTest.

(** What each step gives once the scheduler has run it: the [result] of the
    outcome [run_test_function] returned for that hook. *)
Variable outcome_result : hook -> result.

(** [run_test_function(test, f, istest)] followed by the [yield]. *)
Definition run_test_function (h : hook) (istest : bool) : list effect * result :=
  ([ran h istest], outcome_result h).

(** The body of the [try] of [run_test] past the skip test: the calls made
    and the final value of [success]. *)
Definition run_steps (test : Test) : list effect * bool :=
  let '(l1, success) :=
    if has__pre_setup test then
      let (l, r) := run_test_function _pre_setup false in
      let (lf, failed) := add_failure r in
      (l ++ lf, negb failed)
    else ([], true) in
  let '(l2, success) :=
    if success then
      let (l, r) := run_test_function setUp false in
      let (lf, failed) := add_failure r in
      if negb failed then
        let (lt, rt) := run_test_function testMethod true in
        let (ltf, tfailed) := add_failure rt in
        let success := negb tfailed in
        let la := if success then [assign_result rt] else [] in
        let (ld, rd) := run_test_function tearDown false in
        let (ldf, dfailed) := add_failure rd in
        (l ++ lf ++ lt ++ ltf ++ la ++ ld ++ ldf,
         if dfailed then false else success)
      else (l ++ lf, false)
    else ([], success) in
  let '(l3, success) :=
    if has__post_teardown test then
      let (l, r) := run_test_function _post_teardown false in
      let (lf, failed) := add_failure r in
      (l ++ lf, if failed then false else success)
    else ([], success) in
  (l1 ++ l2 ++ l3, success).

(** [TestRequest.run_test], run to the end of the generator. The
    [StopIteration] raised after [addSkip] is caught by the method's own
    [except StopIteration], which sets [success = False]. *)
Definition run_test (test : Test) : list effect :=
  let '(l, success) :=
    if getattr (class___unittest_skip__ test) false
       || getattr (method___unittest_skip__ test) false
    then
      let reason :=
        or_str (getattr (class___unittest_skip_why__ test) "")
               (getattr (method___unittest_skip_why__ test) "") in
      ([addSkip reason], false)
    else run_steps test in
  if success then l ++ [addSuccess] else l.

End RunTest.

(** *** Inputs and predicates of the properties below *)

(** The class or the test method carries the skip marker. *)
Definition skip_marked (test : Test) : bool :=
  getattr (class___unittest_skip__ test) false
  || getattr (method___unittest_skip__ test) false.

(** The reason [run_test] records: the class-level one unless it is empty. *)
Definition recorded_reason (test : Test) : string :=
  or_str (getattr (class___unittest_skip_why__ test) "")
         (getattr (method___unittest_skip_why__ test) "").

(** The reason with the method-level one taking precedence. *)
Definition method_first_reason (test : Test) : string :=
  or_str (getattr (method___unittest_skip_why__ test) "")
         (getattr (class___unittest_skip_why__ test) "").

(** A skipped method in a skipped class, each with its own reason. *)
Definition both_skipped : Test :=
  {| _testMethodName := "test_ready";
     class___unittest_skip__ := Some true;
     class___unittest_skip_why__ := Some "class off";
     method___unittest_skip__ := Some true;
     method___unittest_skip_why__ := Some "not ready";
     has__pre_setup := false;
     has__post_teardown := false |}.

(** A method skipped with a reason in a class that is not skipped. *)
Definition method_skipped : Test :=
  {| _testMethodName := "test_ready";
     class___unittest_skip__ := None;
     class___unittest_skip_why__ := None;
     method___unittest_skip__ := Some true;
     method___unittest_skip_why__ := Some "not ready";
     has__pre_setup := true;
     has__post_teardown := true |}.

Definition all_pass (h : hook) : result := Value 0.

(** *** [TestRequest.run] *)

(** A test method as the loader finds it in the class. *)
Record TestMethod := mkTestMethod {
  method_name : string;
  method_skip : option bool;
  method_skip_why : option string
}.

(** The part of a test class [run] and [run_test] look at; [cls_tests] is
    what [runner.loadTestsFromTestCase(testcls)] gives, one instance of the
    class for each test method. *)
Record TestClass := mkTestClass {
  cls___unittest_skip__ : option bool;
  cls___unittest_skip_why__ : option string;
  cls_has_setUpClass : bool;
  cls_has_tearDownClass : bool;
  cls_has__pre_setup : bool;
  cls_has__post_teardown : bool;
  cls_tests : list TestMethod
}.

(** The instance of the class for one of its test methods. *)
Definition instance (c : TestClass) (m : TestMethod) : Test :=
  {| _testMethodName := method_name m;
     class___unittest_skip__ := cls___unittest_skip__ c;
     class___unittest_skip_why__ := cls___unittest_skip_why__ c;
     method___unittest_skip__ := method_skip m;
     method___unittest_skip_why__ := method_skip_why m;
     has__pre_setup := cls_has__pre_setup c;
     has__post_teardown := cls_has__post_teardown c |}.

Inductive class_hook := setUpClass | tearDownClass.

(** What [run] does, in order: the calls on the worker and the runner, the
    class-level steps, and what [run_test] does for each test. *)
Inductive run_effect :=
| pop_runner
| set_tag (tag : string)
| ran_class (h : class_hook)
| on_class (e : effect)
| startTest (name : string)
| in_test (name : string) (e : effect)
| stopTest (name : string)
| send_test_result.

Section Run.

(** The [result] of the outcome of each class-level step and of each step
    of each test. *)
Variable class_result : class_hook -> result.
Variable test_result : string -> hook -> result.

(** One class-level hook: [run_test_function] gives [None] for a hook the
    class does not define, and then nothing is yielded or recorded. The
    flag is what [add_failure] returns. *)
Definition class_step (defined : bool) (h : class_hook) : list run_effect * bool :=
  if defined then
    let (lf, failed) := add_failure (class_result h) in
    (ran_class h :: map on_class lf, failed)
  else ([], false).

(** [for test in all_tests: startTest; yield run_test; stopTest] *)
Definition run_tests (c : TestClass) : list run_effect :=
  flat_map
    (fun m =>
       startTest (method_name m)
       :: map (in_test (method_name m))
              (run_test (test_result (method_name m)) (instance c m))
       ++ [stopTest (method_name m)])
    (cls_tests c).

(** [TestRequest.run], run to the end of the generator. *)
Definition run (tag : string) (c : TestClass) : list run_effect :=
  [pop_runner; set_tag tag]
  ++ match cls_tests c with
     | [] => []
     | _ :: _ =>
         let skip_tests := getattr (cls___unittest_skip__ c) false in
         let '(l1, should_stop) :=
           if negb skip_tests then class_step (cls_has_setUpClass c) setUpClass
           else ([], false) in
         let l2 := if negb should_stop then run_tests c else [] in
         let l3 :=
           if negb skip_tests
           then fst (class_step (cls_has_tearDownClass c) tearDownClass)
           else [] in
         l1 ++ l2 ++ l3
     end
  ++ [send_test_result].

End Run.

(** *** Predicates of the further properties *)

(** A step result that is not a failure. *)
Definition passed (r : result) : bool :=
  match r with
  | Value _ => true
  | Failure _ => false
  end.

(** Every step of the per-test sequence that the test has passed. *)
Definition all_passed (outcome_result : hook -> result) (test : Test) : bool :=
  (negb (has__pre_setup test) || passed (outcome_result _pre_setup))
  && passed (outcome_result setUp)
  && passed (outcome_result testMethod)
  && passed (outcome_result tearDown)
  && (negb (has__post_teardown test) || passed (outcome_result _post_teardown)).

(** The hooks a log shows as run, in order. *)
Fixpoint hooks_run (log : list effect) : list hook :=
  match log with
  | [] => []
  | ran h _ :: log' => h :: hooks_run log'
  | _ :: log' => hooks_run log'
  end.

(** The hooks [run_test] has to run for a test that is not skipped: the
    pre-setup hook if there is one; [setUp] if that passed; the test method
    and [tearDown] if [setUp] passed; the post-teardown hook if there is
    one. *)
Definition hooks_due (outcome_result : hook -> result) (test : Test) : list hook :=
  (if has__pre_setup test then [_pre_setup] else [])
  ++ (if negb (has__pre_setup test) || passed (outcome_result _pre_setup)
      then setUp :: (if passed (outcome_result setUp) then [testMethod; tearDown] else [])
      else [])
  ++ (if has__post_teardown test then [_post_teardown] else []).

(** What [run] records for a test of a skipped class. *)
Definition skipped_test (c : TestClass) (m : TestMethod) : list run_effect :=
  [startTest (method_name m);
   in_test (method_name m) (addSkip (recorded_reason (instance c m)));
   stopTest (method_name m)].

(** A call made for a test: its start, its stop or anything in between. *)
Definition about_a_test (e : run_effect) : bool :=
  match e with
  | startTest _ | in_test _ _ | stopTest _ => true
  | _ => false
  end.

(** A test class with a [setUpClass], a [tearDownClass] and two tests. *)
Definition two_tests : TestClass :=
  {| cls___unittest_skip__ := None; cls___unittest_skip_why__ := None;
     cls_has_setUpClass := true; cls_has_tearDownClass := true;
     cls_has__pre_setup := false; cls_has__post_teardown := false;
     cls_tests := [mkTestMethod "test_a" None None; mkTestMethod "test_b" None None] |}.

(** The same class, skipped with a reason. *)
Definition two_tests_skipped : TestClass :=
  {| cls___unittest_skip__ := Some true; cls___unittest_skip_why__ := Some "class off";
     cls_has_setUpClass := true; cls_has_tearDownClass := true;
     cls_has__pre_setup := false; cls_has__post_teardown := false;
     cls_tests := [mkTestMethod "test_a" None None; mkTestMethod "test_b" None None] |}.

(** A [setUpClass] that fails with an error. *)
Definition broken_setUpClass (h : class_hook) : result :=
  match h with
  | setUpClass => Failure [mkTrace 1 false]
  | tearDownClass => Value 0
  end.

(** A [setUp] that fails an assertion. *)
Definition broken_setUp (h : hook) : result :=
  match h with
  | setUp => Failure [mkTrace 1 true]
  | _ => Value 0
  end.

End TestCase.

(** * Properties of the HTTP parser *)

Module HttpFacts.
Import PyBytes Py Http.
Local Open Scope py_scope.

Lemma after_eof_reached fuel :
  feed_data fuel [] (fresh new_HttpRequestParser) = Return None after_eof.
Proof. reflexivity. Qed.

(** ** The loop of [feed_data] at position 3 *)

(** Once the position is past 2 none of the three branches of the loop is
    taken and nothing leaves the loop. *)
Lemma feed_loop_spins fuel : forall w,
  is_message_complete (self w) = true -> feed_loop fuel w = OutOfFuel.
Proof.
  induction fuel as [|fuel IH]; intros w Hw; [reflexivity|].
  cbn [feed_loop]. unfold bind at 1, get.
  unfold is_message_complete in Hw. apply Z.ltb_lt in Hw.
  replace (_position (self w) =? 0) with false by (symmetry; apply Z.eqb_neq; lia).
  unfold is_headers_complete, is_message_complete.
  replace (1 <? _position (self w)) with true by (symmetry; apply Z.ltb_lt; lia).
  replace (2 <? _position (self w)) with true by (symmetry; apply Z.ltb_lt; lia).
  cbn [negb]. apply IH. unfold is_message_complete. apply Z.ltb_lt. lia.
Qed.

(** ** What [_connection] does with the value of a header *)

Lemma _connection_bytes value w : _connection (VBytes value) w = Return tt w.
Proof. destruct w. reflexivity. Qed.

(** ** Methods that leave [buf] and [_position] alone *)

Lemma stable_ret {A} (a : A) : stable (ret a).
Proof. intros w. cbn. auto. Qed.

Lemma stable_raise {A} e : stable (@raise A e).
Proof. intros w. cbn. auto. Qed.

Lemma stable_call c : stable (call c).
Proof. intros w. cbn. auto. Qed.

Lemma stable_lift {A} (r : exn + A) : stable (lift r).
Proof. destruct r; [apply stable_raise | apply stable_ret]. Qed.

Lemma stable_py_int x : stable (py_int x).
Proof. unfold py_int. destruct (int x); [apply stable_ret | apply stable_raise]. Qed.

Lemma stable_assign f :
  (forall p, buf (f p) = buf p /\ _position (f p) = _position p) ->
  stable (assign f).
Proof. intros Hf w. cbn. apply Hf. Qed.

Lemma stable_bind {A B} (m : M A) (k : A -> M B) :
  stable m -> (forall a, stable (k a)) -> stable (bind m k).
Proof.
  intros Hm Hk w. unfold bind. specialize (Hm w).
  destruct (m w) as [a w1|e w1|]; [|exact Hm|exact Hm].
  specialize (Hk a w1). destruct (k a w1) as [c w2|e w2|]; [| |exact Hk];
    destruct Hm as [H1 H2]; rewrite <- H1, <- H2; exact Hk.
Qed.

Create HintDb stable_db.
Create HintDb silent_db.
#[local] Hint Resolve stable_ret stable_raise stable_call stable_lift
  stable_py_int : stable_db.

Ltac stable_step :=
  first
    [ apply stable_bind; [|intros ?]
    | apply stable_assign; intros ?; split; reflexivity
    | solve [auto with stable_db] ].

Lemma stable_assign_version g1 g2 : stable (assign_version g1 g2).
Proof. unfold assign_version. repeat stable_step. Qed.

Lemma stable_parse_first_line line : stable (parse_first_line line).
Proof.
  unfold parse_first_line. apply stable_bind; [intros w; cbn; auto|intros p].
  destruct (cls p); [apply stable_raise| |].
  - unfold request_parse_first_line.
    destruct (split_ws 2 line) as [|b0 [|b1 [|b2 [|? ?]]]]; try apply stable_raise.
    destruct (METHOD_RE_match b0); cbn [negb]; repeat stable_step.
    destruct (VERSION_RE_match b2) as [[g1 g2]|]; [apply stable_assign_version|].
    repeat stable_step.
  - unfold response_parse_first_line.
    destruct (split_ws 1 line) as [|b0 [|b1 [|? ?]]]; try apply stable_raise.
    destruct (VERSION_RE_match b0) as [[g1 g2]|]; [|repeat stable_step].
    destruct (STATUS_RE_match b1) as [[s1 s2]|]; [|repeat stable_step].
    repeat first [apply stable_assign_version | stable_step].
Qed.

Lemma stable__connection value : stable (_connection value).
Proof.
  unfold _connection. apply stable_bind; [apply stable_lift|intros v].
  repeat match goal with |- context [if ?c then _ else _] => destruct c end;
    stable_step.
Qed.

Lemma stable_header_effect name value : stable (header_effect name value).
Proof.
  unfold header_effect.
  destruct (bytes_eqb (lower name) (b "connection")); [apply stable__connection|].
  destruct (bytes_eqb (lower name) (b "content-length")).
  { destruct (int value) as [n|]; [|apply stable_ret].
    apply stable_bind; [stable_step|intros _].
    destruct (n <? 0); stable_step. }
  destruct (bytes_eqb (lower name) (b "transfer-encoding")); [|apply stable_ret].
  destruct (bytes_eqb (lower value) (b "chunked")); stable_step.
Qed.

(** ** [_parse_headers] returns, and returns a false value *)

Lemma startswith_length sub : forall d,
  startswith d sub = true -> (List.length sub <= List.length d)%nat.
Proof.
  induction sub as [|c sub IH]; intros [|e d] H; cbn in *; try lia; try discriminate.
  apply andb_true_iff in H as [_ H]. apply IH in H. lia.
Qed.

(** A successful [find] leaves room for the needle after the index. *)
Lemma find_from_bound sub : forall d i,
  0 <= i -> 0 <= find_from i d sub ->
  find_from i d sub - i + Z.of_nat (List.length sub) <= Z.of_nat (List.length d).
Proof.
  induction d as [|c d IH]; intros i Hi H; cbn [find_from] in *.
  - destruct (startswith [] sub) eqn:E; [|lia].
    apply startswith_length in E. cbn [List.length] in *. lia.
  - destruct (startswith (c :: d) sub) eqn:E.
    + apply startswith_length in E. lia.
    + assert (Hi' : 0 <= i + 1) by lia.
      specialize (IH (i + 1) Hi' H). cbn [List.length]. lia.
Qed.

Lemma find_CRLF_room d :
  0 <= find d CRLF -> find d CRLF + 2 <= Z.of_nat (List.length d).
Proof.
  intros H. unfold find in *.
  pose proof (find_from_bound CRLF d 0 ltac:(lia) H) as Hb.
  cbn [List.length CRLF] in Hb. lia.
Qed.

Lemma headers_loop_returns fuel : forall w,
  (List.length (buf (self w)) < fuel)%nat -> headers_loop fuel w <> OutOfFuel.
Proof.
  induction fuel as [|fuel IH]; intros w Hlen; [lia|].
  cbn [headers_loop]. unfold bind at 1, get.
  destruct (find (buf (self w)) CRLF <? 0) eqn:Eidx; [discriminate|].
  apply Z.ltb_ge in Eidx. pose proof (find_CRLF_room _ Eidx) as Hroom.
  set (idx := find (buf (self w)) CRLF) in *.
  unfold bind at 1, assign.
  set (w1 := mkWorld (set_buf (slice_from (idx + 2) (buf (self w))) (self w)) (calls w)).
  assert (Hw1 : (List.length (buf (self w1)) < fuel)%nat).
  { subst w1. cbn. unfold slice_from. rewrite length_skipn. lia. }
  destruct (idx =? 0); [discriminate|].
  destruct (find (slice_to idx (buf (self w))) (b ":") <? 0); [apply IH; exact Hw1|].
  destruct (split_once ":"%byte (slice_to idx (buf (self w))))
    as [|name [|value [|? ?]]]; try discriminate.
  unfold bind at 1, call.
  set (w2 := mkWorld _ _).
  assert (Hw2 : buf (self w2) = buf (self w1)) by reflexivity.
  unfold bind at 1.
  pose proof (stable_header_effect
                (strip (rstrip_chars [x20; x09] name)) (lstrip value) w2) as Hst.
  destruct (header_effect _ _ w2) as [[] w3|e w3|]; [|discriminate|contradiction].
  apply IH. destruct Hst as [Hb _]. rewrite Hb, Hw2. exact Hw1.
Qed.

Lemma _parse_headers_returns w : _parse_headers w <> OutOfFuel.
Proof. unfold _parse_headers. apply headers_loop_returns. lia. Qed.

(** [_parse_headers] has no [return True]: it gives [False] when a line is
    still incomplete and [None] when the header block is done. *)
Lemma headers_loop_falsy fuel : forall w r w',
  headers_loop fuel w = Return r w' -> truthy_ret r = false.
Proof.
  induction fuel as [|fuel IH]; intros w r w' H; [discriminate|].
  cbn [headers_loop] in H. unfold bind at 1, get in H.
  destruct (find (buf (self w)) CRLF <? 0); [inversion H; reflexivity|].
  unfold bind at 1, assign in H.
  destruct (find (buf (self w)) CRLF =? 0); [inversion H; reflexivity|].
  destruct (find _ (b ":") <? 0); [eapply IH; exact H|].
  destruct (split_once _ _) as [|name [|value [|? ?]]]; try discriminate.
  unfold bind at 1, call in H. unfold bind at 1 in H.
  destruct (header_effect _ _ _) as [[] w3|e w3|]; try discriminate.
  eapply IH; exact H.
Qed.

(** ** [feed_data] returns or raises while the message is not complete *)

Lemma feed_loop_returns fuel w :
  is_message_complete (self w) = false ->
  feed_loop (S (S fuel)) w <> OutOfFuel.
Proof.
  intros Hpos. unfold is_message_complete in Hpos. apply Z.ltb_ge in Hpos.
  assert (Hhead : forall n w1, _position (self w1) <> 0 ->
            is_message_complete (self w1) = false ->
            feed_loop (S n) w1 <> OutOfFuel).
  { intros n w1 Hne Hmc. cbn [feed_loop]. unfold bind at 1, get.
    apply Z.eqb_neq in Hne. rewrite Hne.
    destruct (negb (is_headers_complete (self w1))).
    - unfold bind at 1. pose proof (_parse_headers_returns w1) as Hret.
      unfold _parse_headers in *.
      destruct (headers_loop _ w1) as [r w2|e w2|] eqn:E;
        [|discriminate|contradiction].
      apply headers_loop_falsy in E. rewrite E. discriminate.
    - rewrite Hmc. cbn. discriminate. }
  destruct (Z.eq_dec (_position (self w)) 0) as [H0|H0].
  2:{ apply Hhead; [exact H0|]. unfold is_message_complete. apply Z.ltb_ge. lia. }
  cbn [feed_loop]. unfold bind at 1, get. rewrite H0. cbn [Z.eqb].
  destruct (find (buf (self w)) CRLF <? 0); [discriminate|].
  unfold bind at 1, assign. unfold bind at 1.
  set (w1 := mkWorld (set__position 1 (self w)) (calls w)).
  pose proof (stable_parse_first_line
                (slice_to (find (buf (self w)) CRLF) (buf (self w))) w1) as Hst.
  destruct (parse_first_line _ w1) as [[] w2|e w2|]; [|discriminate|contradiction].
  destruct Hst as [_ Hp]. unfold bind at 1.
  apply Hhead; cbn; unfold is_message_complete; cbn; rewrite Hp; cbn; [lia|reflexivity].
Qed.

(** X1. While the message is not complete [feed_data] comes back, by returning
    or by raising, on every input; two turns of its loop are enough. *)
Lemma feed_data_returns fuel data w :
  is_message_complete (self w) = false ->
  feed_data (S (S fuel)) data w <> OutOfFuel.
Proof.
  intros Hmc. destruct data as [|c data].
  - unfold feed_data, bind, get. rewrite Hmc. discriminate.
  - unfold feed_data. unfold bind at 1, assign. apply feed_loop_returns. exact Hmc.
Qed.

(** ** No non-empty [feed_data] reports a body *)

Lemma silent_ret {A} (a : A) : silent (ret a).
Proof. intros w. exists []. cbn. rewrite app_nil_r. auto. Qed.

Lemma silent_raise {A} e : silent (@raise A e).
Proof. intros w. exists []. cbn. rewrite app_nil_r. auto. Qed.

Lemma silent_get : silent get.
Proof. intros w. exists []. cbn. rewrite app_nil_r. auto. Qed.

Lemma silent_assign f : silent (assign f).
Proof. intros w. exists []. cbn. rewrite app_nil_r. auto. Qed.

Lemma silent_call c : reports_body c = false -> silent (call c).
Proof. intros Hc w. exists [c]. cbn. rewrite Hc. auto. Qed.

Lemma silent_lift {A} (r : exn + A) : silent (lift r).
Proof. destruct r; [apply silent_raise | apply silent_ret]. Qed.

Lemma silent_py_int x : silent (py_int x).
Proof. unfold py_int. destruct (int x); [apply silent_ret | apply silent_raise]. Qed.

Lemma silent_bind {A B} (m : M A) (k : A -> M B) :
  silent m -> (forall a, silent (k a)) -> silent (bind m k).
Proof.
  intros Hm Hk w. unfold bind. specialize (Hm w).
  destruct (m w) as [a w1|e w1|]; [|exact Hm|exact I].
  specialize (Hk a w1). destruct Hm as [l1 [E1 Q1]].
  destruct (k a w1) as [c w2|e w2|]; [| |exact I];
    destruct Hk as [l2 [E2 Q2]]; exists (l1 ++ l2);
    (split; [rewrite E2, E1, app_assoc; reflexivity
            |rewrite existsb_app, Q1, Q2; reflexivity]).
Qed.

#[local] Hint Resolve silent_ret silent_raise silent_get silent_assign
  silent_lift silent_py_int : silent_db.

Ltac silent_step :=
  first
    [ apply silent_bind; [|intros ?]
    | apply silent_call; reflexivity
    | solve [auto with silent_db] ].

Lemma silent_assign_version g1 g2 : silent (assign_version g1 g2).
Proof. unfold assign_version. repeat silent_step. Qed.

Lemma silent_parse_first_line line : silent (parse_first_line line).
Proof.
  unfold parse_first_line. apply silent_bind; [apply silent_get|intros p].
  destruct (cls p); [apply silent_raise| |].
  - unfold request_parse_first_line.
    destruct (split_ws 2 line) as [|b0 [|b1 [|b2 [|? ?]]]]; try apply silent_raise.
    destruct (METHOD_RE_match b0); cbn [negb]; repeat silent_step.
    destruct (VERSION_RE_match b2) as [[g1 g2]|]; [apply silent_assign_version|].
    repeat silent_step.
  - unfold response_parse_first_line.
    destruct (split_ws 1 line) as [|b0 [|b1 [|? ?]]]; try apply silent_raise.
    destruct (VERSION_RE_match b0) as [[g1 g2]|]; [|repeat silent_step].
    destruct (STATUS_RE_match b1) as [[s1 s2]|]; [|repeat silent_step].
    repeat first [apply silent_assign_version | silent_step].
Qed.

Lemma silent_header_effect name value : silent (header_effect name value).
Proof.
  unfold header_effect, _connection.
  repeat match goal with
         | |- silent (if ?c then _ else _) => destruct c
         | |- silent (match int ?v with _ => _ end) => destruct (int v)
         | |- _ => silent_step
         end.
Qed.

Lemma silent_headers_loop fuel : silent (headers_loop fuel).
Proof.
  induction fuel as [|fuel IH]; [intros w; exact I|].
  cbn [headers_loop]. apply silent_bind; [apply silent_get|intros p].
  destruct (_ <? 0); [apply silent_ret|].
  apply silent_bind; [apply silent_assign|intros _].
  destruct (_ =? 0); [repeat silent_step|].
  destruct (_ <? 0); [exact IH|].
  destruct (split_once _ _) as [|name [|value [|? ?]]]; try apply silent_raise.
  apply silent_bind; [apply silent_call; reflexivity|intros _].
  apply silent_bind; [apply silent_header_effect|intros _]. exact IH.
Qed.

Lemma silent_feed_loop fuel : silent (feed_loop fuel).
Proof.
  induction fuel as [|fuel IH]; [intros w; exact I|].
  cbn [feed_loop]. apply silent_bind; [apply silent_get|intros p].
  destruct (_position p =? 0).
  { destruct (_ <? 0); [apply silent_ret|].
    apply silent_bind; [apply silent_assign|intros _].
    apply silent_bind; [apply silent_parse_first_line|intros _].
    apply silent_bind; [apply silent_assign|intros _]. exact IH. }
  destruct (negb (is_headers_complete p)).
  { apply silent_bind; [intros w; apply silent_headers_loop|intros r].
    destruct (negb (truthy_ret r)); [apply silent_ret|exact IH]. }
  destruct (negb (is_message_complete p)); [|exact IH].
  unfold _parse_body. intros w. exists []. cbn. rewrite app_nil_r. auto.
Qed.

(** X3. Whatever non-empty data is fed, in whatever state, the call adds no
    [on_body] and no [on_message_complete] to the callbacks made so far. *)
Lemma nonempty_feed_reports_no_body fuel c data : silent (feed_data fuel (c :: data)).
Proof.
  unfold feed_data. apply silent_bind; [apply silent_assign|intros _].
  apply silent_feed_loop.
Qed.

(** ** The status line of a response *)

(** A status that does not open with three digits never produces the
    invalid-status error: formatting its message fails first. *)
Lemma bad_status_raises_ValueError line bits0 bits1 g w :
  split_ws 1 line = [bits0; bits1] ->
  VERSION_RE_match bits0 = Some g ->
  STATUS_RE_match bits1 = None ->
  response_parse_first_line line w = Raise (ValueError "incomplete format") w.
Proof.
  intros Hs Hv Hst. unfold response_parse_first_line.
  rewrite Hs, Hv. destruct g as [g1 g2]. rewrite Hst. reflexivity.
Qed.

Lemma response_never_invalid_status line w e w' :
  response_parse_first_line line w = Raise e w' ->
  forall arg, e <> HttpParserInvalidStatusError arg.
Proof.
  unfold response_parse_first_line.
  destruct (split_ws 1 line) as [|b0 [|b1 [|? ?]]];
    try (intros H arg; inversion H; discriminate).
  destruct (VERSION_RE_match b0) as [[g1 g2]|];
    [|intros H arg; inversion H; discriminate].
  destruct (STATUS_RE_match b1) as [[s1 s2]|];
    [|intros H arg; inversion H; discriminate].
  unfold bind at 1, call. unfold bind at 1.
  unfold assign_version.
  unfold bind at 1, py_int.
  destruct (int g1); [|intros H arg; inversion H; discriminate].
  unfold ret at 1. unfold bind at 1, assign. unfold bind at 1.
  destruct (int g2); [|intros H arg; inversion H; discriminate].
  unfold ret at 1. cbn. unfold bind at 1, assign. unfold bind at 1.
  destruct (int s1); intros H arg; inversion H; discriminate.
Qed.

(** ** [should_keep_alive] *)

(** X10. With both version numbers above zero and the close flag clear, a
    response with a declared length is kept alive. *)
Lemma should_keep_alive_1_1 p major minor code :
  type p = HTTP_RESPONSE ->
  version_major p = Some major -> 0 < major ->
  version_minor p = Some minor -> 0 < minor ->
  status_code p = Some code ->
  Z.land (flags p) F.CONNECTION_CLOSE = 0 ->
  content_length p <> sys_maxsize ->
  should_keep_alive p = inr true.
Proof.
  intros Hty Hma Hmapos Hmi Hmipos Hcode Hclose Hlen.
  unfold should_keep_alive, version_above_1_0, http_message_needs_eof, gt0.
  rewrite Hma, Hmi, Hty, Hcode, Hclose. cbn [ParserType_eqb truthy Z.eqb negb].
  replace (0 <? major) with true by (symmetry; apply Z.ltb_lt; lia).
  replace (0 <? minor) with true by (symmetry; apply Z.ltb_lt; lia).
  replace (content_length p =? sys_maxsize) with false
    by (symmetry; apply Z.eqb_neq; exact Hlen).
  cbn [negb]. rewrite orb_true_r.
  destruct (_ || _); reflexivity.
Qed.

(** With a minor version of zero the method answers [False] when the
    keep-alive flag is SET; when it is clear the answer is left to
    [http_message_needs_eof]. *)
Lemma should_keep_alive_1_0 p major :
  version_major p = Some major -> 0 < major ->
  version_minor p = Some 0 ->
  should_keep_alive p =
    if truthy (Z.land (flags p) F.CONNECTION_KEEP_ALIVE) then inr false
    else match http_message_needs_eof p with
         | inr r => inr (negb r)
         | inl e => inl e
         end.
Proof.
  intros Hma Hpos Hmi. unfold should_keep_alive, version_above_1_0, gt0.
  rewrite Hma, Hmi.
  replace (0 <? major) with true by (symmetry; apply Z.ltb_lt; lia).
  reflexivity.
Qed.

(** ** The claims *)

(** C1 (the code departs from it). Fed the whole request
    ["GET /x HTTP/1.1\r\nHost: a\r\nContent-Length: 5\r\n\r\nhello"] in one
    [feed_data] call, a request parser sets method [GET] and version [1.1],
    reports the [Host] and [Content-Length] headers and the end of the
    headers, and then returns: [_parse_headers] has returned [None], which
    [feed_data] takes for "no more input" and leaves its loop. No [on_body]
    and no [on_message_complete] call is made, the five bytes [hello] stay
    in [buf], and the message is not complete. *)
Theorem C1_feed_data_stops_after_headers : forall fuel,
  exists w,
    feed_data (S (S fuel)) request (fresh new_HttpRequestParser) = Return None w
    /\ method (self w) = Some (b "GET")
    /\ version (self w) = Some "1.1"%string
    /\ content_length (self w) = 5
    /\ calls w = [on_url (b "/x"); on_header (b "Host") (b "a");
                  on_header (b "Content-Length") (b "5"); on_headers_complete]
    /\ buf (self w) = b "hello"
    /\ is_headers_complete (self w) = true
    /\ is_message_complete (self w) = false.
Proof.
  intros fuel. eexists. split; [vm_compute; reflexivity|].
  repeat split; reflexivity.
Qed.

(** C2 (the code departs from it). An HTTP/1.0 response with a declared
    length and no [Connection] header: after its start line and headers are
    parsed the version is [1.0], no flag is set, and [should_keep_alive()]
    returns [True], where the claim has [False]. *)
Theorem C2_http_1_0_without_connection_kept_alive : forall fuel,
  exists w,
    feed_data (S (S fuel)) response_1_0 (fresh new_HttpResponseParser) = Return None w
    /\ version (self w) = Some "1.0"%string
    /\ is_headers_complete (self w) = true
    /\ calls w = [on_status (b "200 OK"); on_header (b "Content-Length") (b "5");
                  on_headers_complete]
    /\ flags (self w) = 0
    /\ should_keep_alive (self w) = inr true.
Proof.
  intros fuel. eexists. split; [vm_compute; reflexivity|].
  repeat split; reflexivity.
Qed.

(** C3 (the code departs from it). Fed the status line ["HTTP/1.1 XYZ\r\n"],
    a response parser raises [ValueError], not
    [HttpParserInvalidStatusError]: the message ["Invalid status %" % bits[1]]
    of the intended error is an incomplete format. No callback has fired
    and [is_headers_complete()] is false afterwards. *)
Theorem C3_bad_status_raises_ValueError : forall fuel,
  exists w,
    feed_data (S fuel) bad_status (fresh new_HttpResponseParser)
      = Raise (ValueError "incomplete format") w
    /\ calls w = []
    /\ _position (self w) = 1
    /\ is_headers_complete (self w) = false.
Proof.
  intros fuel. eexists. split; [vm_compute; reflexivity|].
  repeat split; reflexivity.
Qed.

(** C4 (the code departs from it). [_connection] compares the lowered
    [bytes] value of the header with the [str] literals ['keep-alive'],
    ['close'] and ['upgrade'], so for every value taken from a header block
    it changes nothing; after a request with [Connection: close] the flag
    set is still empty. *)
Theorem C4_connection_header_sets_no_flag :
  (forall value w, _connection (VBytes value) w = Return tt w)
  /\ forall fuel, exists w,
       feed_data (S (S fuel)) request_close (fresh new_HttpRequestParser) = Return None w
       /\ calls w = [on_url (b "/"); on_header (b "Connection") (b "close");
                     on_headers_complete]
       /\ Z.land (flags (self w)) F.CONNECTION_CLOSE = 0
       /\ flags (self w) = 0.
Proof.
  split; [apply _connection_bytes|].
  intros fuel. eexists. split; [vm_compute; reflexivity|].
  repeat split; reflexivity.
Qed.

(** C9 (the code departs from it). On a parser that is message-complete
    (position 3) [feed_data] with non-empty data never returns: the data is
    appended to [buf] and the loop then turns without taking any branch,
    whatever the fuel. *)
Theorem C9_feed_data_after_complete_never_returns fuel data w :
  _position (self w) = 3 ->
  data <> [] ->
  feed_data fuel data w = OutOfFuel.
Proof.
  intros Hpos Hdata. destruct data as [|c data]; [congruence|].
  unfold feed_data. unfold bind at 1, assign.
  apply feed_loop_spins. unfold is_message_complete. cbn. rewrite Hpos. reflexivity.
Qed.

Lemma C9_witness :
  _position (self after_eof) = 3 /\ b "x" <> [] /\
  feed_data 1000 (b "x") after_eof = OutOfFuel.
Proof.
  split; [reflexivity|]. split; [discriminate|].
  apply C9_feed_data_after_complete_never_returns; [reflexivity|discriminate].
Defined.

(** C10. Feeding empty data to a parser whose position is 3 changes
    nothing: the position stays 3 and no callback, so no second
    [on_message_complete], is invoked. *)
Theorem C10_empty_feed_when_complete_is_noop fuel w :
  _position (self w) = 3 ->
  feed_data fuel [] w = Return None w.
Proof.
  intros Hpos. unfold feed_data, bind, get, is_message_complete.
  rewrite Hpos. reflexivity.
Qed.

Lemma C10_witness :
  _position (self after_eof) = 3 /\
  feed_data 0 [] after_eof = Return None after_eof.
Proof.
  split; [reflexivity|].
  apply C10_empty_feed_when_complete_is_noop. reflexivity.
Defined.

(** Signalling the end of the message twice is the same as signalling it
    once, from any state. *)
Lemma empty_feed_idempotent fuel w :
  bind (feed_data fuel []) (fun _ => feed_data fuel []) w = feed_data fuel [] w.
Proof.
  unfold feed_data, bind, get.
  destruct (is_message_complete (self w)) eqn:E; cbn; [rewrite E; reflexivity|].
  reflexivity.
Qed.

End HttpFacts.

(** * Properties of events *)

Module EventsFacts.
Import Py Events.

(** An event that has fired does nothing when fired again. *)
Lemma fire_when_fired behaviour exc data e :
  _self e = None -> fire behaviour exc data e = mkFired e [] None.
Proof. intros H. unfold fire. rewrite H. reflexivity. Qed.

Lemma bind_when_fired callback e :
  _self e = None ->
  bind callback e =
    inl (RuntimeError (__repr__ e +:+ " already fired, cannot add callbacks")).
Proof. intros H. unfold bind. rewrite H. reflexivity. Qed.

(** Firing a one-time event drops the owner, whether the handlers return or
    one of them raises. *)
Lemma fire_onetime_drops_owner behaviour exc data e :
  onetime e = true -> _self (after (fire behaviour exc data e)) = None.
Proof.
  intros Hone. unfold fire. destruct (_self e) as [o|] eqn:Hself; [|exact Hself].
  rewrite Hone.
  destruct (match _handlers e with
            | Some (h :: hs) => call_all behaviour (h :: hs) o _
            | _ => ([], None)
            end) as [called [err|]]; [reflexivity|].
  cbn [_waiter set__self set__handlers].
  destruct (_waiter e); reflexivity.
Qed.

(** Nothing but [fire] drops the owner: a new event with an owner has not
    fired, and binding, unbinding, clearing and asking for the waiter keep
    it that way. *)
Lemma init_not_fired name o onetime : fired (init name (Some o) onetime) = false.
Proof. reflexivity. Qed.

Lemma bind_keeps_owner callback e e' : bind callback e = inr e' -> _self e' = _self e.
Proof.
  unfold bind. destruct (_self e) eqn:Hs; [|discriminate].
  destruct (_handlers e); intros H; inversion H; subst; cbn; exact Hs.
Qed.

Lemma unbind_keeps_owner callback e : _self (fst (unbind callback e)) = _self e.
Proof.
  unfold unbind. destruct (_handlers e) as [[|h hs]|]; try reflexivity.
  destruct (_ =? 0); reflexivity.
Qed.

Lemma clear_keeps_owner e : _self (clear e) = _self e.
Proof. reflexivity. Qed.

Lemma waiter_keeps_owner created e : _self (fst (waiter created e)) = _self e.
Proof. unfold waiter. destruct (_waiter e); reflexivity. Qed.

(** Calls other than [fire] keep the owner, and nothing brings an owner
    back once it is dropped. *)
Lemma step_keeps_owner behaviour e o :
  is_fire o = false -> _self (step behaviour e o) = _self e.
Proof.
  destruct o as [cb|cb| |created|exc data]; cbn [is_fire step]; intros H;
    try discriminate.
  - destruct (bind cb e) as [err|e'] eqn:E; [reflexivity|].
    eapply bind_keeps_owner; exact E.
  - apply unbind_keeps_owner.
  - apply clear_keeps_owner.
  - apply waiter_keeps_owner.
Qed.

Lemma step_stays_fired behaviour e o :
  _self e = None -> _self (step behaviour e o) = None.
Proof.
  intros H. destruct (is_fire o) eqn:Ho.
  - destruct o; try discriminate. cbn [step].
    rewrite fire_when_fired by exact H. exact H.
  - rewrite step_keeps_owner by exact Ho. exact H.
Qed.

Lemma step_keeps_onetime behaviour e o :
  onetime (step behaviour e o) = onetime e.
Proof.
  destruct o as [cb|cb| |created|exc data]; cbn [step].
  - unfold bind. destruct (_self e); [|reflexivity].
    destruct (_handlers e); reflexivity.
  - unfold unbind. destruct (_handlers e) as [[|h hs]|]; try reflexivity.
    destruct (_ =? 0); reflexivity.
  - reflexivity.
  - unfold waiter. destruct (_waiter e); reflexivity.
  - unfold fire. destruct (_self e) as [o|]; [|reflexivity].
    destruct (onetime e) eqn:Hone;
      destruct (match _handlers e with
                | Some (h :: hs) => call_all behaviour (h :: hs) o _
                | _ => ([], None)
                end) as [called [err|]]; cbn [after];
      try (destruct (_waiter _)); cbn; try exact Hone; reflexivity.
Qed.

Lemma history_stays_fired behaviour ops : forall e,
  _self e = None -> _self (history behaviour ops e) = None.
Proof.
  induction ops as [|o ops IH]; intros e H; [exact H|].
  change (history behaviour (o :: ops) e)
    with (history behaviour ops (step behaviour e o)).
  apply IH. apply step_stays_fired. exact H.
Qed.

(** Until the first [fire] the event has its owner. *)
Lemma history_without_fire behaviour ops : forall e,
  existsb is_fire ops = false -> _self (history behaviour ops e) = _self e.
Proof.
  induction ops as [|o ops IH]; intros e H; [reflexivity|].
  cbn in H. apply orb_false_iff in H as [Ho Hops].
  change (history behaviour (o :: ops) e)
    with (history behaviour ops (step behaviour e o)).
  rewrite IH by exact Hops. apply step_keeps_owner. exact Ho.
Qed.

(** From the first [fire] on a one-time event has none. *)
Lemma history_with_fire behaviour ops : forall e,
  onetime e = true -> existsb is_fire ops = true ->
  _self (history behaviour ops e) = None.
Proof.
  induction ops as [|o ops IH]; intros e Hone H; [discriminate|].
  cbn in H.
  change (history behaviour (o :: ops) e)
    with (history behaviour ops (step behaviour e o)).
  destruct (is_fire o) eqn:Ho.
  - destruct o; try discriminate. cbn [step].
    apply history_stays_fired. apply fire_onetime_drops_owner. exact Hone.
  - cbn in H. apply IH; [|exact H]. rewrite step_keeps_onetime. exact Hone.
Qed.

(** C6. For every one-time event created for an owner, in the state [e] it
    has after any sequence [ops] of calls: if [ops] holds no [fire], [bind]
    appends the callback to the handler list; if [ops] holds a [fire], one
    more [fire] calls no handler and resolves no waiter (it has no effect
    and leaves the event as it is) and [bind] raises [RuntimeError]. *)
Theorem C6_onetime_event behaviour name o flag ops callback exc data :
  flag <> 0 ->
  let e := history behaviour ops (init name (Some o) flag) in
  (existsb is_fire ops = false -> bind callback e = inr (appended callback e))
  /\ (existsb is_fire ops = true ->
        fire behaviour exc data e = mkFired e [] None
        /\ bind callback e =
             inl (RuntimeError (__repr__ e +:+ " already fired, cannot add callbacks"))).
Proof.
  intros Hflag e. split.
  - intros Hops.
    assert (Hself : _self e = Some o)
      by (subst e; rewrite history_without_fire by exact Hops; reflexivity).
    unfold bind, appended. rewrite Hself. destruct (_handlers e); reflexivity.
  - intros Hops.
    assert (Hself : _self e = None).
    { subst e. apply history_with_fire; [|exact Hops].
      unfold onetime, init. cbn. apply negb_true_iff, Z.eqb_neq. exact Hflag. }
    split; [apply fire_when_fired|apply bind_when_fired]; exact Hself.
Qed.

Lemma C6_witness :
  (1 <> 0)
  /\ bind late (history quiet [op_bind on_start; op_waiter (mkFuture 3)]
                  (init "start" (Some owner) 1))
     = inr (appended late
              (history quiet [op_bind on_start; op_waiter (mkFuture 3)]
                 (init "start" (Some owner) 1)))
  /\ fire quiet None None
       (history quiet [op_bind on_start; op_waiter (mkFuture 3); op_fire None None]
          (init "start" (Some owner) 1))
     = mkFired
         (history quiet [op_bind on_start; op_waiter (mkFuture 3); op_fire None None]
            (init "start" (Some owner) 1)) [] None.
Proof.
  split; [discriminate|]. split.
  - apply (C6_onetime_event quiet "start" owner 1
             [op_bind on_start; op_waiter (mkFuture 3)] late None None);
      [discriminate|reflexivity].
  - apply (C6_onetime_event quiet "start" owner 1
             [op_bind on_start; op_waiter (mkFuture 3); op_fire None None]
             late None None); [discriminate|reflexivity].
Defined.

(** The first [fire] of [started] does call the handler and resolve the
    waiter, so the silence of the second one is not vacuous. *)
Example started_first_fire :
  effects (fire quiet None None started)
  = [Called on_start owner kw_none; set_result (mkFuture 3) owner].
Proof. reflexivity. Qed.

End EventsFacts.

(** * Properties of the actor spawner *)

Module SpawnerFacts.
Import Py Spawner.

Lemma Concurrency_process_actor_injects monitor d d' :
  Concurrency_process_actor monitor d = inr d' ->
  exists m, monitor = Some m /\ injects_both_proxies m d'.
Proof.
  unfold Concurrency_process_actor. destruct monitor as [m|]; [|discriminate].
  destruct (if is_arbiter m then Some m else arbiter m) as [a|] eqn:Ha; [|discriminate].
  intros H. inversion H; subst; clear H. exists m. split; [reflexivity|].
  exists a. split; [exact Ha|]. cbn. split.
  - rewrite lookup_insert_ne by discriminate. apply lookup_insert_eq.
  - apply lookup_insert_eq.
Qed.

Lemma MonitorConcurrency_process_actor_arbiter monitor d d' :
  MonitorConcurrency_process_actor monitor d = inr d' ->
  a_kwargs d' !! "arbiter" = Some (kw_of_actor monitor)
  /\ a_kwargs d' !! "monitor" = a_kwargs d !! "monitor"
  /\ timeout d' = 0.
Proof.
  unfold MonitorConcurrency_process_actor. intros H. inversion H; subst; clear H.
  cbn. split; [apply lookup_insert_eq|]. split; [|reflexivity].
  apply lookup_insert_ne. discriminate.
Qed.

(** C7, as stated, fails for kind [monitor]: the descriptor holds the
    supervising actor itself under [arbiter] and nothing under [monitor]. *)
Lemma C7_counterexample :
  concurrency "0123456789ab" "monitor" "Monitor" 30 (Some root) None ∅ ∅
    = inr monitor_descriptor
  /\ ~ injects_both_proxies root monitor_descriptor.
Proof.
  split; [reflexivity|].
  intros [arb [_ [_ Hmon]]]. cbn [a_kwargs monitor_descriptor] in Hmon.
  rewrite lookup_singleton_ne in Hmon by discriminate. discriminate.
Qed.

(** C7 (amended). For every descriptor [concurrency] produces: with kind
    [thread] or [process] the constructor arguments hold proxy handles of
    the arbiter and of the owning monitor, the arbiter being the monitor
    itself when it is the root and the monitor's own arbiter otherwise;
    with kind [monitor] the [arbiter] argument is the supervising actor
    that was passed in, itself, and no [monitor] argument is added. *)
Theorem C7_constructor_arguments uid kind ac tmo monitor aid0 cs params d :
  concurrency uid kind ac tmo monitor aid0 cs params = inr d ->
  (kind = "thread" \/ kind = "process" ->
     exists m, monitor = Some m /\ injects_both_proxies m d)
  /\ (kind = "monitor" ->
        a_kwargs d !! "arbiter" = Some (kw_of_actor monitor)
        /\ a_kwargs d !! "monitor" = snd (pop_loglevel params) !! "monitor").
Proof.
  intros H. split.
  - intros Hk. unfold concurrency in H.
    assert (Hmake : exists c, (c = ActorThread \/ c = ActorProcess) /\
              make uid c kind ac tmo monitor aid0 cs params = inr d).
    { destruct Hk as [-> | ->]; cbn in H; eauto. }
    destruct Hmake as [c [Hc Hmake]]. unfold make in Hmake.
    destruct (pop_loglevel params) as [lvl kw].
    unfold process_actor in Hmake. cbn [cls] in Hmake.
    destruct Hc as [-> | ->]; eapply Concurrency_process_actor_injects; exact Hmake.
  - intros ->. cbn in H. unfold make in H.
    destruct (pop_loglevel params) as [lvl kw] eqn:Hpop.
    unfold process_actor in H. cbn [cls] in H.
    apply MonitorConcurrency_process_actor_arbiter in H as [Ha [Hm _]].
    split; [exact Ha|]. rewrite Hm. reflexivity.
Qed.

Lemma C7_witness :
  (exists m, Some pool = Some m /\
     injects_both_proxies m
       {| cls := ActorThread; aid := "01234567"; impl := "thread";
          commands_set := ∅; timeout := 30; actor_class := "Actor";
          loglevel := KNone;
          a_kwargs := <["monitor" := KProxy (mkProxy "a1b2c3d4")]>
                        (<["arbiter" := KProxy (mkProxy "arbiter")]> ∅);
          actor := None |}).
Proof.
  refine (proj1 (C7_constructor_arguments "0123456789ab" "thread" "Actor" 30
                   (Some pool) None ∅ ∅ _ _) _).
  - reflexivity.
  - left. reflexivity.
Defined.

(** *** [terminate] *)

(** [terminate] returns after [n] sleeps exactly when [result.called] was
    true the first [n] times it was read and false the next time. *)
Lemma terminate_loop_returns called fuel : forall k l,
  terminate_loop called fuel k = Some l ->
  l = repeat (sleep (1 # 10)) (List.length l)
  /\ called (k + List.length l)%nat = false
  /\ forall j, (j < List.length l)%nat -> called (k + j)%nat = true.
Proof.
  induction fuel as [|fuel IH]; intros k l H; [discriminate|].
  cbn [terminate_loop] in H. destruct (called k) eqn:Hk.
  - destruct (terminate_loop called fuel (S k)) as [l'|] eqn:E; [|discriminate].
    inversion H; subst; clear H. destruct (IH _ _ E) as [Hrep [Hend Hall]].
    cbn [List.length repeat]. split; [f_equal; exact Hrep|]. split.
    + replace (k + S (List.length l'))%nat with (S k + List.length l')%nat by lia.
      exact Hend.
    + intros [|j] Hj; [rewrite Nat.add_0_r; exact Hk|].
      replace (k + S j)%nat with (S k + j)%nat by lia. apply Hall. lia.
  - inversion H; subst. cbn. rewrite Nat.add_0_r. split; [reflexivity|].
    split; [exact Hk|]. intros j Hj. lia.
Qed.

(** While the result stays delivered the loop does not end. *)
Lemma terminate_loop_delivered called fuel : forall k,
  (forall j, (k <= j)%nat -> called j = true) ->
  terminate_loop called fuel k = None.
Proof.
  induction fuel as [|fuel IH]; intros k H; [reflexivity|].
  cbn [terminate_loop]. rewrite (H k) by lia. rewrite IH; [reflexivity|].
  intros j Hj. apply H. lia.
Qed.

(** C8 (the code departs from it). When the result of the stop has not been
    delivered, [terminate] requests the stop and returns at once, without
    sleeping; when it has been delivered, [terminate] sleeps for ever. *)
Theorem C8_terminate_waits_while_delivered : forall fuel,
  terminate not_delivered (S fuel) = Some [stop true]
  /\ terminate delivered fuel = None.
Proof.
  intros fuel. split; [reflexivity|].
  unfold terminate. rewrite terminate_loop_delivered; [reflexivity|].
  intros j _. reflexivity.
Qed.

End SpawnerFacts.

(** * Properties of the test runner *)

Module TestCaseFacts.
Import TestCase.

(** C5, as stated, fails when both the class and the method declare a
    reason: the skip is recorded with the reason of the class. *)
Lemma C5_counterexample :
  skip_marked both_skipped = true
  /\ run_test all_pass both_skipped = [addSkip "class off"]
  /\ run_test all_pass both_skipped <> [addSkip (method_first_reason both_skipped)].
Proof.
  split; [reflexivity|]. split; [reflexivity|]. discriminate.
Qed.

(** C5 (amended). For every test whose class or method carries the skip
    marker, whatever the hooks would do, [run_test] makes exactly one call:
    [addSkip] with the class-level reason when that is not empty and the
    method-level reason otherwise. It runs no hook (neither [setUp], nor the
    test method, nor [tearDown]) and records no success. *)
Theorem C5_skip_recorded outcome_result test :
  skip_marked test = true ->
  run_test outcome_result test = [addSkip (recorded_reason test)].
Proof.
  unfold skip_marked, run_test, recorded_reason. intros ->. reflexivity.
Qed.

Lemma C5_witness :
  skip_marked method_skipped = true
  /\ run_test all_pass method_skipped = [addSkip "not ready"].
Proof.
  split; [reflexivity|].
  exact (C5_skip_recorded all_pass method_skipped eq_refl).
Defined.

(** A test that is not skipped and whose steps all pass runs its hooks in
    order and records one success, so the silence above is the skip's. *)
Example not_skipped_runs :
  run_test all_pass
    (mkTest "test_ready" None None None None false false)
  = [ran setUp false; ran testMethod true; assign_result (Value 0);
     ran tearDown false; addSuccess].
Proof. reflexivity. Qed.

(** [add_failure] only ever calls [addFailure] and [addError]. *)
Lemma add_failure_calls r e :
  In e (fst (add_failure r)) ->
  (exists t, e = addFailure t) \/ (exists t, e = addError t).
Proof.
  destruct r as [traces|v]; cbn; [|intros []].
  intros He. apply in_map_iff in He as [t [<- _]].
  destruct (is_failureException t); eauto.
Qed.

(** When [setUp] fails the test method and [tearDown] are not run, the
    post-teardown hook still is, and no success is recorded. *)
Lemma setUp_failure_short_circuits outcome_result test traces :
  skip_marked test = false ->
  has__pre_setup test = false ->
  outcome_result setUp = Failure traces ->
  let log := run_test outcome_result test in
  ~ In (ran testMethod true) log /\ ~ In (ran tearDown false) log
  /\ ~ In addSuccess log
  /\ (has__post_teardown test = true -> In (ran _post_teardown false) log).
Proof.
  unfold skip_marked. intros Hskip Hpre Hset.
  unfold run_test. rewrite Hskip. unfold run_steps. rewrite Hpre.
  unfold run_test_function. rewrite Hset.
  pose proof (add_failure_calls (Failure traces)) as Hset_calls.
  pose proof (add_failure_calls (outcome_result _post_teardown)) as Hpost_calls.
  cbn [add_failure negb fst] in *.
  set (lset := map _ traces) in *.
  destruct (has__post_teardown test).
  - destruct (add_failure (outcome_result _post_teardown)) as [lf failed].
    cbn [fst] in Hpost_calls.
    replace (if failed then false else false) with false by (destruct failed; reflexivity).
    cbv zeta. cbn [app].
    assert (Hin : forall e, In e (ran setUp false :: lset ++ ran _post_teardown false :: lf) ->
              e = ran setUp false \/ e = ran _post_teardown false
              \/ (exists t, e = addFailure t) \/ (exists t, e = addError t)).
    { intros e [<-|He]; [auto|]. apply in_app_or in He as [He|[<-|He]]; auto. }
    repeat split.
    + intros H. apply Hin in H as [H|[H|[[t H]|[t H]]]]; discriminate.
    + intros H. apply Hin in H as [H|[H|[[t H]|[t H]]]]; discriminate.
    + intros H. apply Hin in H as [H|[H|[[t H]|[t H]]]]; discriminate.
    + intros _. right. apply in_or_app. right. left. reflexivity.
  - cbv zeta. cbn [app]. rewrite app_nil_r.
    assert (Hin : forall e, In e (ran setUp false :: lset) ->
              e = ran setUp false
              \/ (exists t, e = addFailure t) \/ (exists t, e = addError t)).
    { intros e [<-|He]; auto. }
    repeat split.
    + intros H. apply Hin in H as [H|[[t H]|[t H]]]; discriminate.
    + intros H. apply Hin in H as [H|[[t H]|[t H]]]; discriminate.
    + intros H. apply Hin in H as [H|[[t H]|[t H]]]; discriminate.
    + discriminate.
Qed.

End TestCaseFacts.

(** * More properties of the HTTP parser *)

Module HttpMore.
Import PyBytes Py Http HttpFacts.
Local Open Scope py_scope.

(** ** Digits and [int] *)








(** ** The groups of the patterns *)







(** ** The first line *)





(** ** [_parse_headers] never raises *)






(** ** What [feed_data] keeps *)

Lemma keeps_ret R {A} (a : A) : (forall p, R p p) -> keeps R (ret a).
Proof. intros HR w. apply HR. Qed.

Lemma keeps_raise R {A} e : (forall p, R p p) -> keeps R (@raise A e).
Proof. intros HR w. apply HR. Qed.

Lemma keeps_get R : (forall p, R p p) -> keeps R get.
Proof. intros HR w. apply HR. Qed.

Lemma keeps_call R c : (forall p, R p p) -> keeps R (call c).
Proof. intros HR w. apply HR. Qed.

Lemma keeps_lift R {A} (r : exn + A) : (forall p, R p p) -> keeps R (lift r).
Proof. intros HR. destruct r; [apply keeps_raise | apply keeps_ret]; exact HR. Qed.

Lemma keeps_py_int R x : (forall p, R p p) -> keeps R (py_int x).
Proof.
  intros HR. unfold py_int. destruct (int x); [apply keeps_ret | apply keeps_raise]; exact HR.
Qed.

Lemma keeps_assign R f : (forall p, R p (f p)) -> keeps R (assign f).
Proof. intros Hf w. apply Hf. Qed.

Lemma keeps_bind R {A B} (m : M A) (k : A -> M B) :
  (forall p q r, R p q -> R q r -> R p r) ->
  keeps R m -> (forall a, keeps R (k a)) -> keeps R (bind m k).
Proof.
  intros Htrans Hm Hk w. unfold bind. specialize (Hm w).
  destruct (m w) as [a w1|e w1|]; [|exact Hm|exact I].
  specialize (Hk a w1). destruct (k a w1) as [c w2|e w2|]; [| |exact I];
    eapply Htrans; eassumption.
Qed.

Lemma frame_refl p : frame p p.
Proof. unfold frame. auto. Qed.

Lemma frame_trans p q r : frame p q -> frame q r -> frame p r.
Proof.
  unfold frame. intros [T1 [C1 [L1 F1]]] [T2 [C2 [L2 F2]]].
  repeat split; [congruence|congruence|auto|congruence].
Qed.

Lemma frame_chunked p : frame p (set_flags (Z.lor (flags p) F.CHUNKED) p).
Proof.
  unfold frame. cbn. repeat split; auto.
  rewrite <- Z.lor_assoc, Z.lor_diag. reflexivity.
Qed.

Ltac frame_step :=
  first
    [ apply keeps_bind; [exact frame_trans| |intros ?]
    | apply keeps_assign; intros ?;
      first [exact (frame_chunked _) | solve [unfold frame; cbn; repeat split; auto]]
    | apply keeps_ret; exact frame_refl
    | apply keeps_raise; exact frame_refl
    | apply keeps_get; exact frame_refl
    | apply keeps_call; exact frame_refl
    | apply keeps_lift; exact frame_refl
    | apply keeps_py_int; exact frame_refl ].

Lemma frame_assign_version g1 g2 : keeps frame (assign_version g1 g2).
Proof. unfold assign_version. repeat frame_step. Qed.

Lemma frame_parse_first_line line : keeps frame (parse_first_line line).
Proof.
  unfold parse_first_line. apply keeps_bind; [exact frame_trans|frame_step|intros p].
  destruct (cls p); [frame_step| |].
  - unfold request_parse_first_line.
    destruct (split_ws 2 line) as [|b0 [|b1 [|b2 [|? ?]]]]; try solve [frame_step].
    destruct (METHOD_RE_match b0); cbn [negb]; repeat frame_step.
    destruct (VERSION_RE_match b2) as [[g1 g2]|]; [apply frame_assign_version|].
    repeat frame_step.
  - unfold response_parse_first_line.
    destruct (split_ws 1 line) as [|b0 [|b1 [|? ?]]]; try solve [frame_step].
    destruct (VERSION_RE_match b0) as [[g1 g2]|]; [|repeat frame_step].
    destruct (STATUS_RE_match b1) as [[s1 s2]|]; [|repeat frame_step].
    repeat first [apply frame_assign_version | frame_step].
Qed.

Lemma frame_header_effect name value : keeps frame (header_effect name value).
Proof.
  unfold header_effect.
  destruct (bytes_eqb (lower name) (b "connection")).
  { intros w. rewrite _connection_bytes. apply frame_refl. }
  destruct (bytes_eqb (lower name) (b "content-length")).
  { destruct (int value) as [n|]; [|frame_step].
    intros w. unfold bind, assign. destruct (n <? 0) eqn:En; cbn.
    - unfold frame. cbn. repeat split; auto. intros _. unfold sys_maxsize. lia.
    - unfold frame. cbn. repeat split; auto. intros _. apply Z.ltb_ge. exact En. }
  destruct (bytes_eqb (lower name) (b "transfer-encoding")); [|frame_step].
  destruct (bytes_eqb (lower value) (b "chunked")); frame_step.
Qed.

Lemma frame_headers_loop fuel : keeps frame (headers_loop fuel).
Proof.
  induction fuel as [|fuel IH]; [intros w; exact I|].
  cbn [headers_loop]. apply keeps_bind; [exact frame_trans|frame_step|intros p].
  destruct (_ <? 0); [frame_step|].
  apply keeps_bind; [exact frame_trans|frame_step|intros _].
  destruct (_ =? 0); [repeat frame_step|].
  destruct (_ <? 0); [exact IH|].
  destruct (split_once _ _) as [|name [|value [|? ?]]]; try solve [frame_step].
  apply keeps_bind; [exact frame_trans|frame_step|intros _].
  apply keeps_bind; [exact frame_trans|apply frame_header_effect|intros _]. exact IH.
Qed.

Lemma frame_feed_loop fuel : keeps frame (feed_loop fuel).
Proof.
  induction fuel as [|fuel IH]; [intros w; exact I|].
  cbn [feed_loop]. apply keeps_bind; [exact frame_trans|frame_step|intros p].
  destruct (_position p =? 0).
  { destruct (_ <? 0); [frame_step|].
    apply keeps_bind; [exact frame_trans|frame_step|intros _].
    apply keeps_bind; [exact frame_trans|apply frame_parse_first_line|intros _].
    apply keeps_bind; [exact frame_trans|frame_step|intros _]. exact IH. }
  destruct (negb (is_headers_complete p)).
  { apply keeps_bind; [exact frame_trans|intros w; apply frame_headers_loop|intros r].
    destruct (negb (truthy_ret r)); [frame_step|exact IH]. }
  destruct (negb (is_message_complete p)); [|exact IH].
  unfold _parse_body. intros w. apply frame_refl.
Qed.

Lemma frame_feed_data fuel data : keeps frame (feed_data fuel data).
Proof.
  unfold feed_data. destruct data as [|c data].
  - apply keeps_bind; [exact frame_trans|frame_step|intros p].
    apply keeps_bind; [exact frame_trans| |intros _; frame_step].
    destruct (negb (is_message_complete p)); repeat frame_step.
  - apply keeps_bind; [exact frame_trans|frame_step|intros _]. apply frame_feed_loop.
Qed.

(** X6. A declared length is never left negative: whatever is fed, if
    [content_length] was not negative before the call it is not negative
    when the call returns or raises. *)
Theorem feed_data_content_length_not_negative fuel data w :
  0 <= content_length (self w) ->
  match feed_data fuel data w with
  | Return _ w' | Raise _ w' => 0 <= content_length (self w')
  | OutOfFuel => True
  end.
Proof.
  intros H. pose proof (frame_feed_data fuel data w) as Hf.
  destruct (feed_data fuel data w); [| |exact I]; apply Hf; exact H.
Qed.

(** A request whose [Content-Length] is negative. *)
Lemma feed_data_content_length_not_negative_witness :
  0 <= content_length (self (fresh new_HttpRequestParser))
  /\ match feed_data 2 (b "GET / HTTP/1.1" ++ CRLF ++ b "Content-Length: -7" ++ CRLF ++ CRLF)
            (fresh new_HttpRequestParser) with
     | Return _ w' | Raise _ w' => 0 <= content_length (self w')
     | OutOfFuel => True
     end.
Proof.
  split; [discriminate|].
  apply feed_data_content_length_not_negative. discriminate.
Defined.

Lemma land_lor_chunked f g mask :
  Z.land F.CHUNKED mask = 0 ->
  Z.lor f F.CHUNKED = Z.lor g F.CHUNKED ->
  Z.land f mask = Z.land g mask.
Proof.
  intros Hm H.
  assert (E : forall x, Z.land (Z.lor x F.CHUNKED) mask = Z.land x mask)
    by (intros x; rewrite Z.land_lor_distr_l, Hm, Z.lor_0_r; reflexivity).
  rewrite <- (E f), <- (E g), H. reflexivity.
Qed.


(** ** The position only moves forward *)

Lemma at_most_headers_done_refl p : at_most_headers_done p p.
Proof. left. reflexivity. Qed.

Lemma at_most_headers_done_trans p q r :
  at_most_headers_done p q -> at_most_headers_done q r -> at_most_headers_done p r.
Proof. unfold at_most_headers_done. intros [H1|H1] [H2|H2]; rewrite ?H2, ?H1; auto. Qed.

Lemma position_headers_loop fuel : keeps at_most_headers_done (headers_loop fuel).
Proof.
  induction fuel as [|fuel IH]; [intros w; exact I|].
  cbn [headers_loop].
  apply keeps_bind;
    [exact at_most_headers_done_trans|apply keeps_get, at_most_headers_done_refl|intros p].
  destruct (_ <? 0); [apply keeps_ret, at_most_headers_done_refl|].
  apply keeps_bind; [exact at_most_headers_done_trans| |intros _].
  { apply keeps_assign. intros q. left. reflexivity. }
  destruct (_ =? 0).
  { apply keeps_bind;
      [exact at_most_headers_done_trans|apply keeps_get, at_most_headers_done_refl|intros q].
    apply keeps_bind; [exact at_most_headers_done_trans| |intros _].
    { apply keeps_assign. intros q'. left. reflexivity. }
    apply keeps_bind; [exact at_most_headers_done_trans| |intros _].
    { apply keeps_assign. intros q'. right. reflexivity. }
    apply keeps_bind; [exact at_most_headers_done_trans| |intros _].
    { apply keeps_call, at_most_headers_done_refl. }
    apply keeps_ret, at_most_headers_done_refl. }
  destruct (_ <? 0); [exact IH|].
  destruct (split_once _ _) as [|name [|value [|? ?]]];
    try solve [apply keeps_raise, at_most_headers_done_refl].
  apply keeps_bind; [exact at_most_headers_done_trans| |intros _].
  { apply keeps_call, at_most_headers_done_refl. }
  apply keeps_bind; [exact at_most_headers_done_trans| |intros _]; [|exact IH].
  intros w.
  match goal with
  | |- context [header_effect ?n ?v w] =>
      pose proof (stable_header_effect n v w) as Hs;
      destruct (header_effect n v w); [| |contradiction]; left; apply Hs
  end.
Qed.

Lemma moved_forward_refl p : moved_forward p p.
Proof. unfold moved_forward. lia. Qed.

Lemma moved_forward_trans p q r :
  moved_forward p q -> moved_forward q r -> moved_forward p r.
Proof. unfold moved_forward. lia. Qed.

Lemma position_feed_loop fuel : keeps moved_forward (feed_loop fuel).
Proof.
  induction fuel as [|fuel IH]; intros w; [exact I|].
  cbn [feed_loop]. unfold bind at 1, get.
  destruct (_position (self w) =? 0) eqn:E0.
  { apply Z.eqb_eq in E0. destruct (_ <? 0); [apply moved_forward_refl|].
    unfold bind at 1, assign. unfold bind at 1.
    set (w1 := mkWorld (set__position 1 (self w)) (calls w)).
    pose proof (stable_parse_first_line
                  (slice_to (find (buf (self w)) CRLF) (buf (self w))) w1) as Hst.
    destruct (parse_first_line _ w1) as [[] w2|e w2|]; [| |contradiction].
    - destruct Hst as [_ Hp]. unfold bind at 1, assign.
      set (w3 := mkWorld _ _).
      assert (H13 : moved_forward (self w) (self w3)).
      { subst w3. unfold moved_forward. cbn. rewrite Hp. cbn. lia. }
      pose proof (IH w3) as H3. destruct (feed_loop fuel w3); [| |exact I];
        eapply moved_forward_trans; eassumption.
    - destruct Hst as [_ Hp]. unfold moved_forward. rewrite Hp. cbn. lia. }
  apply Z.eqb_neq in E0.
  destruct (negb (is_headers_complete (self w))) eqn:Eh.
  { apply negb_true_iff in Eh. unfold is_headers_complete in Eh. apply Z.ltb_ge in Eh.
    unfold bind at 1. pose proof (position_headers_loop
                                    (S (List.length (buf (self w)))) w) as Hh.
    unfold _parse_headers.
    destruct (headers_loop _ w) as [r w2|e w2|]; [| |exact I].
    - assert (H12 : moved_forward (self w) (self w2))
        by (unfold moved_forward; destruct Hh as [Hh|Hh]; rewrite Hh; lia).
      destruct (negb (truthy_ret r)); [exact H12|].
      pose proof (IH w2) as H2. destruct (feed_loop fuel w2); [| |exact I];
        eapply moved_forward_trans; eassumption.
    - unfold moved_forward. destruct Hh as [Hh|Hh]; rewrite Hh; lia. }
  destruct (negb (is_message_complete (self w))); [apply moved_forward_refl|].
  apply IH.
Qed.

(** X8. [feed_data] never moves the position back, and a position it changes is
    one of 1, 2 and 3. *)
Theorem feed_data_moves_forward fuel data w :
  match feed_data fuel data w with
  | Return _ w' | Raise _ w' =>
      _position (self w) <= _position (self w')
      /\ (_position (self w') = _position (self w) \/ 1 <= _position (self w') <= 3)
  | OutOfFuel => True
  end.
Proof.
  unfold feed_data. destruct data as [|c data].
  - unfold bind, get. destruct (negb (is_message_complete (self w))) eqn:E; cbn.
    + apply negb_true_iff in E. unfold is_message_complete in E. apply Z.ltb_ge in E. lia.
    + lia.
  - unfold bind at 1, assign.
    exact (position_feed_loop fuel (mkWorld (set_buf (buf (self w) ++ c :: data) (self w))
                                      (calls w))).
Qed.

(** ** Requests are always kept alive *)

Lemma after_feed_frame fuel data w w' :
  after_feed fuel data w = Some w' -> frame (self w) (self w').
Proof.
  unfold after_feed. pose proof (frame_feed_data fuel data w) as Hf.
  destruct (feed_data fuel data w); intros H; inversion H; subst; exact Hf.
Qed.

Lemma after_feeds_frame fuel datas : forall w w',
  after_feeds fuel datas w = Some w' -> frame (self w) (self w').
Proof.
  induction datas as [|data datas IH]; intros w w' H; cbn in H.
  - inversion H. apply frame_refl.
  - destruct (after_feed fuel data w) as [w1|] eqn:E; [|discriminate].
    eapply frame_trans; [eapply after_feed_frame; exact E|apply IH; exact H].
Qed.

(** X9. Whatever is fed to a request parser, in however many calls, once both
    version numbers are set [should_keep_alive()] is [True]: a
    [Connection: close] header has no effect on it. *)
Theorem request_always_kept_alive fuel datas w major minor :
  after_feeds fuel datas (fresh new_HttpRequestParser) = Some w ->
  version_major (self w) = Some major ->
  version_minor (self w) = Some minor ->
  should_keep_alive (self w) = inr true.
Proof.
  intros Hfeeds Hma Hmi.
  apply after_feeds_frame in Hfeeds as [Hty [_ [_ Hfl]]].
  cbn in Hty, Hfl.
  assert (Hk : Z.land (flags (self w)) F.CONNECTION_KEEP_ALIVE = 0)
    by (erewrite land_lor_chunked; [| |exact Hfl]; reflexivity).
  assert (Hc : Z.land (flags (self w)) F.CONNECTION_CLOSE = 0)
    by (erewrite land_lor_chunked; [| |exact Hfl]; reflexivity).
  unfold should_keep_alive, version_above_1_0, http_message_needs_eof, gt0.
  rewrite Hma, Hmi, Hty, Hk, Hc. cbn.
  destruct (0 <? major); [destruct (0 <? minor)|]; reflexivity.
Qed.

Lemma request_always_kept_alive_witness :
  exists w,
    after_feeds 2 [b "GET / HTTP/1.1" ++ CRLF; b "Connection: close" ++ CRLF ++ CRLF]
      (fresh new_HttpRequestParser) = Some w
    /\ flags (self w) = 0
    /\ should_keep_alive (self w) = inr true.
Proof.
  eexists. split; [vm_compute; reflexivity|]. split; [reflexivity|].
  eapply (request_always_kept_alive 2
            [b "GET / HTTP/1.1" ++ CRLF; b "Connection: close" ++ CRLF ++ CRLF]);
    reflexivity.
Defined.

(** ** Witnesses of properties proved with the claims *)

Lemma feed_data_returns_witness :
  is_message_complete (self (fresh new_HttpRequestParser)) = false
  /\ feed_data 2 request (fresh new_HttpRequestParser) <> OutOfFuel.
Proof.
  split; [reflexivity|].
  apply (feed_data_returns 0 request (fresh new_HttpRequestParser)). reflexivity.
Defined.

(** An HTTP/1.1 response with a declared length, once its headers are
    parsed. *)
Lemma should_keep_alive_1_1_witness :
  should_keep_alive
    (set_content_length 5
       (set_status_code (Some 200)
          (set_version_minor (Some 1)
             (set_version_major (Some 1) new_HttpResponseParser))))
  = inr true.
Proof.
  apply (should_keep_alive_1_1 _ 1 1 200); try reflexivity; discriminate.
Defined.

End HttpMore.

(** * More properties of events *)

Module EventsMore.
Import Py Events EventsFacts.

Lemma handler_eqb_eq f g : handler_eqb f g = true <-> f = g.
Proof.
  unfold handler_eqb. destruct f as [i r], g as [j t]. cbn. split.
  - intros H. apply andb_true_iff in H as [H1 H2].
    apply Nat.eqb_eq in H1. apply String.eqb_eq in H2. congruence.
  - intros H. inversion H. rewrite Nat.eqb_refl, String.eqb_refl. reflexivity.
Qed.

Lemma handler_eqb_sym f g : handler_eqb f g = handler_eqb g f.
Proof.
  destruct (handler_eqb f g) eqn:E.
  - apply handler_eqb_eq in E. subst. symmetry. apply handler_eqb_eq. reflexivity.
  - destruct (handler_eqb g f) eqn:E'; [|reflexivity].
    apply handler_eqb_eq in E'. subst.
    assert (handler_eqb f f = true) by (apply handler_eqb_eq; reflexivity). congruence.
Qed.

(** The filter of the model, on a boolean test, is the usual one. *)
Lemma filter_bool {A} (f : A -> bool) (l : list A) :
  filter (fun x => f x) l = List.filter f l.
Proof.
  induction l as [|x l IH]; [reflexivity|].
  rewrite filter_cons. cbn [List.filter]. rewrite <- IH.
  destruct (f x); destruct (decide _) as [H|H]; cbn in H; try reflexivity; tauto.
Qed.

Lemma filter_split {A} (f : A -> bool) (l : list A) :
  (List.length (List.filter f l)
   + List.length (List.filter (fun x => negb (f x)) l))%nat = List.length l.
Proof.
  induction l as [|x l IH]; [reflexivity|].
  cbn. destruct (f x); cbn; lia.
Qed.

Lemma filter_all {A} (f : A -> bool) (l : list A) :
  List.length (List.filter f l) = List.length l -> List.filter f l = l.
Proof.
  induction l as [|x l IH]; [reflexivity|]. cbn.
  pose proof (filter_split f l) as Hs. destruct (f x); cbn; intros H.
  - f_equal. apply IH. lia.
  - lia.
Qed.

Lemma unbind_outcome callback e :
  handlers_list (fst (unbind callback e))
    = List.filter (fun f => negb (handler_eqb f callback)) (handlers_list e)
  /\ snd (unbind callback e) = times_bound callback e
  /\ ~ In callback (handlers_list (fst (unbind callback e)))
  /\ _self (fst (unbind callback e)) = _self e
  /\ _waiter (fst (unbind callback e)) = _waiter e.
Proof.
  assert (Hnot : forall l, ~ In callback
                   (List.filter (fun f => negb (handler_eqb f callback)) l)).
  { intros l Hin. apply filter_In in Hin as [_ Hin].
    apply negb_true_iff in Hin.
    assert (handler_eqb callback callback = true) by (apply handler_eqb_eq; reflexivity).
    congruence. }
  assert (Hcount : forall l,
            Z.of_nat (List.length l)
            - Z.of_nat (List.length
                          (List.filter (fun f => negb (handler_eqb f callback)) l))
            = Z.of_nat (List.length (List.filter (handler_eqb callback) l))).
  { intros l. pose proof (filter_split (fun f => handler_eqb f callback) l) as Hs.
    cbn beta in Hs.
    replace (List.filter (handler_eqb callback) l)
      with (List.filter (fun f => handler_eqb f callback) l)
      by (apply filter_ext; intros a; apply handler_eqb_sym).
    lia. }
  unfold times_bound. rewrite filter_bool.
  unfold unbind, handlers_list.
  destruct (_handlers e) as [[|h hs]|] eqn:Eh; cbn [fst snd];
    rewrite ?Eh; try solve [repeat split; auto].
  rewrite filter_bool. rewrite Hcount.
  destruct (_ =? 0) eqn:E0; cbn [fst snd]; rewrite ?Eh; cbn [_handlers set__handlers].
  - apply Z.eqb_eq in E0. rewrite <- Hcount in E0.
    assert (Hall : List.filter (fun f => negb (handler_eqb f callback)) (h :: hs) = h :: hs)
      by (apply filter_all; lia).
    rewrite Hall. repeat split; try reflexivity. rewrite <- Hall. apply Hnot.
  - repeat split; try reflexivity. apply Hnot.
Qed.

(** X11. [unbind] removes every binding of the callback and nothing else, leaves
    the other callbacks in their order, and returns how often the callback
    was bound. *)
Theorem unbind_removes_every_binding callback e :
  handlers_list (fst (unbind callback e))
    = List.filter (fun f => negb (handler_eqb f callback)) (handlers_list e)
  /\ snd (unbind callback e) = times_bound callback e
  /\ ~ In callback (handlers_list (fst (unbind callback e)))
  /\ _self (fst (unbind callback e)) = _self e
  /\ _waiter (fst (unbind callback e)) = _waiter e.
Proof. exact (unbind_outcome callback e). Qed.

Lemma bind_appends callback e :
  fired e = false ->
  bind callback e = inr (appended callback e)
  /\ handlers_list (appended callback e) = handlers_list e ++ [callback].
Proof.
  unfold fired, bind, appended, handlers_list. destruct (_self e); [|discriminate].
  intros _. destruct (_handlers e); split; reflexivity.
Qed.

(** X12. Binding a callback that is not bound and unbinding it again gives back
    the list of callbacks there was, and [unbind] reports one removal. *)
Theorem bind_unbind_round_trip callback e :
  fired e = false ->
  times_bound callback e = 0 ->
  exists e1,
    bind callback e = inr e1
    /\ snd (unbind callback e1) = 1
    /\ handlers_list (fst (unbind callback e1)) = handlers_list e.
Proof.
  intros Hf Hz. destruct (bind_appends callback e Hf) as [Hb Hl].
  exists (appended callback e). split; [exact Hb|].
  destruct (unbind_outcome callback (appended callback e)) as [Hh [Hn _]].
  assert (Hself : handler_eqb callback callback = true)
    by (apply handler_eqb_eq; reflexivity).
  unfold times_bound in *. rewrite filter_bool in *.
  assert (Hkeep : List.filter (fun f => negb (handler_eqb f callback)) (handlers_list e)
                  = handlers_list e).
  { apply filter_all. pose proof (filter_split (fun f => handler_eqb f callback)
                                    (handlers_list e)) as Hs. cbn beta in Hs.
    replace (List.filter (fun f => handler_eqb f callback) (handlers_list e))
      with (List.filter (handler_eqb callback) (handlers_list e)) in Hs
      by (apply filter_ext; intros a; apply handler_eqb_sym).
    lia. }
  split.
  - rewrite Hn, Hl, List.filter_app, length_app. cbn. rewrite Hself. cbn. lia.
  - rewrite Hh, Hl, List.filter_app, Hkeep. cbn. rewrite Hself. cbn.
    apply app_nil_r.
Qed.

Lemma bind_unbind_round_trip_witness :
  exists e1,
    bind late started = inr e1
    /\ snd (unbind late e1) = 1
    /\ handlers_list (fst (unbind late e1)) = [on_start].
Proof.
  exact (bind_unbind_round_trip late started eq_refl eq_refl).
Defined.

(** ** [fire] *)

Lemma call_all_quiet behaviour o kw hs :
  (forall h, behaviour h o kw = None) ->
  call_all behaviour hs o kw = (map (fun h => Called h o kw) hs, None).
Proof.
  intros Hq. induction hs as [|h hs IH]; [reflexivity|].
  cbn. rewrite Hq, IH. reflexivity.
Qed.

Lemma call_all_only_calls behaviour o kw hs eff :
  In eff (fst (call_all behaviour hs o kw)) -> exists h, eff = Called h o kw.
Proof.
  induction hs as [|h hs IH]; cbn; [intros []|].
  destruct (behaviour h o kw).
  - cbn. intros [<-|[]]. eauto.
  - destruct (call_all behaviour hs o kw) as [l r]. cbn in *.
    intros [<-|H]; eauto.
Qed.

(** X13. Firing an event that is not one-time, with handlers that all return:
    every bound handler is called once, in the order of binding, with [exc]
    if it is given and else with [data] if it is given; a pending waiter is
    resolved after the handlers and dropped; owner and handlers stay, so the
    event can be fired again. *)
Theorem fire_repeatable_calls_all behaviour exc data e o :
  onetime e = false ->
  _self e = Some o ->
  (forall h, behaviour h o (kwarg_of exc data) = None) ->
  let r := fire behaviour exc data e in
  raised r = None
  /\ effects r
     = map (fun h => Called h o (kwarg_of exc data)) (handlers_list e)
       ++ match _waiter e with
          | Some w => [resolution w exc o]
          | None => []
          end
  /\ _self (after r) = Some o
  /\ _handlers (after r) = _handlers e
  /\ _waiter (after r) = None.
Proof.
  intros Hone Hself Hq. unfold fire. rewrite Hself, Hone.
  fold (kwarg_of exc data).
  assert (Hcalls :
    match _handlers e with
    | Some (h :: hs) => call_all behaviour (h :: hs) o (kwarg_of exc data)
    | _ => ([], None)
    end = (map (fun h => Called h o (kwarg_of exc data)) (handlers_list e), None)).
  { unfold handlers_list. destruct (_handlers e) as [[|h hs]|]; try reflexivity.
    apply call_all_quiet, Hq. }
  rewrite Hcalls. unfold resolution.
  destruct (_waiter e) as [w|] eqn:Ew; cbv zeta; cbn [raised effects after].
  - repeat split; try reflexivity; cbn; auto.
  - rewrite app_nil_r. repeat split; auto.
Qed.

Lemma fire_repeatable_calls_all_witness :
  effects (fire quiet None (Some owner)
             (mkEvent "data" 0 (Some owner) (Some [on_start; late]) None))
  = [Called on_start owner (kw_data owner); Called late owner (kw_data owner)].
Proof.
  exact (proj1 (proj2 (fire_repeatable_calls_all quiet None (Some owner)
                          (mkEvent "data" 0 (Some owner) (Some [on_start; late]) None)
                          owner eq_refl eq_refl (fun h => eq_refl)))).
Defined.

(** X14. When a handler raises, [fire] stops there: what it did is handler calls
    only, and a pending waiter is neither resolved nor dropped. *)
Theorem fire_stopped_by_handler behaviour exc data e err :
  raised (fire behaviour exc data e) = Some err ->
  _waiter (after (fire behaviour exc data e)) = _waiter e
  /\ forall eff, In eff (effects (fire behaviour exc data e)) ->
       exists h o kw, eff = Called h o kw.
Proof.
  unfold fire. destruct (_self e) as [o|]; [|discriminate].
  fold (kwarg_of exc data).
  pose proof (call_all_only_calls behaviour o (kwarg_of exc data)) as Honly.
  destruct (match _handlers e with
            | Some (h :: hs) => call_all behaviour (h :: hs) o (kwarg_of exc data)
            | _ => ([], None)
            end) as [called r] eqn:Ec.
  destruct r as [err'|].
  - intros _. cbn [after effects]. split.
    + destruct (onetime e); reflexivity.
    + intros eff Hin. destruct (_handlers e) as [[|h hs]|];
        try (inversion Ec; subst; destruct Hin).
      specialize (Honly (h :: hs) eff). rewrite Ec in Honly.
      destruct (Honly Hin) as [h' ->]. eauto.
  - destruct (_waiter (if onetime e then _ else e)); discriminate.
Qed.

(** A handler that raises. *)
Lemma fire_stopped_by_handler_witness :
  _waiter (after (fire (fun _ _ _ => Some (RuntimeError "boom")) None None started))
  = Some (mkFuture 3).
Proof.
  exact (proj1 (fire_stopped_by_handler (fun _ _ _ => Some (RuntimeError "boom"))
                  None None started (RuntimeError "boom") eq_refl)).
Defined.

(** X15. The waiter handed out stays the event's waiter until the event fires:
    asking again gives the same future, the next [fire] of an event that
    has its owner resolves that future last, and a waiter asked for after
    that is a new one. *)
Theorem waiter_resolved_by_next_fire behaviour exc data created created' e o :
  _self e = Some o ->
  (forall h, behaviour h o (kwarg_of exc data) = None) ->
  let e1 := fst (waiter created e) in
  let w := snd (waiter created e) in
  waiter created' e1 = (e1, w)
  /\ (exists called, effects (fire behaviour exc data e1) = called ++ [resolution w exc o])
  /\ snd (waiter created' (after (fire behaviour exc data e1))) = created'.
Proof.
  intros Hself Hq. cbv zeta.
  assert (Hw : _waiter (fst (waiter created e)) = Some (snd (waiter created e))).
  { unfold waiter. destruct (_waiter e) eqn:E; cbn; [exact E|reflexivity]. }
  assert (Hs : _self (fst (waiter created e)) = Some o)
    by (rewrite waiter_keeps_owner; exact Hself).
  set (e1 := fst (waiter created e)) in *. set (w := snd (waiter created e)) in *.
  split; [unfold waiter; rewrite Hw; reflexivity|].
  unfold fire. rewrite Hs. fold (kwarg_of exc data).
  assert (Hcalls : exists called,
    match _handlers e1 with
    | Some (h :: hs) => call_all behaviour (h :: hs) o (kwarg_of exc data)
    | _ => ([], None)
    end = (called, None)).
  { destruct (_handlers e1) as [[|h hs]|]; eauto.
    rewrite call_all_quiet by exact Hq. eauto. }
  destruct Hcalls as [called Hcalls]. rewrite Hcalls.
  assert (Hw' : _waiter (if onetime e1 then set__self None (set__handlers None e1) else e1)
                = Some w) by (destruct (onetime e1); exact Hw).
  rewrite Hw'. cbn [effects after]. split.
  - exists called. reflexivity.
  - reflexivity.
Qed.

Lemma waiter_resolved_by_next_fire_witness :
  exists called,
    effects (fire quiet None None (fst (waiter (mkFuture 9) started)))
    = called ++ [set_result (mkFuture 3) owner].
Proof.
  exact (proj1 (proj2 (waiter_resolved_by_next_fire quiet None None (mkFuture 9)
                          (mkFuture 10) started owner eq_refl (fun h => eq_refl)))).
Defined.

(** ** [EventHandler] *)

Lemma dict_get_set_eq k v d : dict_get k (dict_set k v d) = Some v.
Proof.
  induction d as [|[k' v'] d IH]; cbn.
  - rewrite String.eqb_refl. reflexivity.
  - destruct (String.eqb k' k) eqn:E; cbn; rewrite E; [reflexivity|exact IH].
Qed.

Lemma dict_get_set_ne k k' v d :
  k <> k' -> dict_get k' (dict_set k v d) = dict_get k' d.
Proof.
  intros Hne. induction d as [|[k0 v0] d IH]; cbn.
  - destruct (String.eqb k k') eqn:E; [apply String.eqb_eq in E; congruence|reflexivity].
  - destruct (String.eqb k0 k) eqn:E; cbn.
    + apply String.eqb_eq in E. subst k0.
      destruct (String.eqb k k') eqn:E'; [apply String.eqb_eq in E'; congruence|reflexivity].
    + destruct (String.eqb k0 k'); [reflexivity|exact IH].
Qed.

Lemma dict_set_keys k v v0 d :
  dict_get k d = Some v0 -> map fst (dict_set k v d) = map fst d.
Proof.
  induction d as [|[k' v'] d IH]; cbn; [discriminate|].
  destruct (String.eqb k' k); cbn; [reflexivity|]. intros H. rewrite IH by exact H.
  reflexivity.
Qed.




Lemma set__events_twice v h : set__events v (set__events v h) = set__events v h.
Proof. reflexivity. Qed.

(** X16. [event(name)] registers the name at most once: a second call returns
    the event of the first and leaves the registry as the first left it. *)
Theorem event_idempotent name h :
  event name (fst (event name h)) = event name h.
Proof.
  unfold event.
  destruct (dict_get name (match _events h with Some d => d | None => one_time_registry h end))
    as [e|] eqn:E; cbn [fst _events set__events].
  - rewrite E. reflexivity.
  - rewrite dict_get_set_eq. reflexivity.
Qed.

Lemma one_time_registry_get name (o : pyobj) ot : forall acc,
  dict_get name (fold_left (fun d n => dict_set n (init n (Some o) 1) d) ot acc)
  = if existsb (String.eqb name) ot
    then Some (init name (Some o) 1)
    else dict_get name acc.
Proof.
  induction ot as [|n ot IH]; intros acc; [reflexivity|].
  cbn [fold_left existsb]. rewrite IH.
  destruct (existsb (String.eqb name) ot); [rewrite orb_true_r; reflexivity|].
  rewrite orb_false_r. destruct (String.eqb name n) eqn:E.
  - apply String.eqb_eq in E. subst. apply dict_get_set_eq.
  - apply dict_get_set_ne. intros ->. rewrite String.eqb_refl in E. discriminate.
Qed.

(** X17. The first [event(name)] call on an object gives an event owned by the
    object, with no handler and no waiter, that is one-time exactly when
    the name is among the object's [ONE_TIME_EVENTS]. *)
Theorem first_event_kind name h :
  _events h = None ->
  snd (event name h)
  = init name (Some (this h))
      (if existsb (String.eqb name)
            (match ONE_TIME_EVENTS h with Some ot => ot | None => [] end)
       then 1 else 0).
Proof.
  intros Hnone. unfold event. rewrite Hnone. unfold one_time_registry.
  rewrite one_time_registry_get. cbn [dict_get].
  destruct (existsb _ _); reflexivity.
Qed.

Lemma first_event_kind_witness :
  onetime (snd (event "start" (mkEventHandler owner (Some ["start"; "finish"]) None))) = true
  /\ onetime (snd (event "data" (mkEventHandler owner (Some ["start"; "finish"]) None))) = false.
Proof.
  rewrite (first_event_kind "start" (mkEventHandler owner (Some ["start"; "finish"]) None) eq_refl).
  rewrite (first_event_kind "data" (mkEventHandler owner (Some ["start"; "finish"]) None) eq_refl).
  split; reflexivity.
Defined.

Lemma bind_events_loop_keys events d :
  map fst (fst (bind_events_loop events d)) = map fst d.
Proof.
  induction d as [|[k e] d IH]; [reflexivity|]. cbn.
  destruct (events !! name e) as [cb|].
  - destruct (bind cb e); [reflexivity|].
    destruct (bind_events_loop events d). cbn in *. rewrite IH. reflexivity.
  - destruct (bind_events_loop events d). cbn in *. rewrite IH. reflexivity.
Qed.

Lemma copy_loop_keys others : forall events,
  map fst (fst (copy_loop others events)) = map fst events.
Proof.
  induction others as [|[n ev] rest IH]; intros events; [reflexivity|].
  cbn [copy_loop]. destruct (negb (onetime ev)); [|apply IH].
  destruct (_handlers ev) as [[|c cs]|]; try apply IH.
  destruct (dict_get n events) as [e|] eqn:E; [|apply IH].
  destruct (bind_all (c :: cs) e) as [e' [err|]].
  - cbn. eapply dict_set_keys; exact E.
  - rewrite IH. eapply dict_set_keys; exact E.
Qed.

(** X18. Only [event] registers names: [fire_event], [bind_events] and
    [copy_many_times_events] leave the registered names as they are, also
    when they raise. *)
Theorem only_event_registers behaviour name exc data events other h :
  registered (fst (fst (fire_event behaviour name exc data h))) = registered h
  /\ registered (fst (bind_events events h)) = registered h
  /\ registered (fst (copy_many_times_events other h)) = registered h.
Proof.
  unfold registered. split; [|split].
  - unfold fire_event.
    destruct (_events h) as [[|x d]|] eqn:E; try (cbn [fst]; rewrite E; reflexivity).
    destruct (dict_get name (x :: d)) as [e|] eqn:Eg; cbn [fst];
      [|rewrite E; reflexivity].
    cbn [_events set__events]. eapply dict_set_keys; exact Eg.
  - unfold bind_events. destruct (_events h) as [[|x d]|] eqn:E; cbn [fst]; rewrite ?E;
      try reflexivity.
    destruct (Nat.eqb (size events) 0); cbn [fst]; rewrite ?E; [reflexivity|].
    pose proof (bind_events_loop_keys events (x :: d)) as Hk.
    destruct (bind_events_loop events (x :: d)). exact Hk.
  - unfold copy_many_times_events.
    destruct (_events h) as [[|x d]|] eqn:E; cbn [fst]; rewrite ?E; try reflexivity.
    destruct (_events other) as [[|y o]|]; cbn [fst]; rewrite ?E; try reflexivity.
    pose proof (copy_loop_keys (y :: o) (x :: d)) as Hk.
    destruct (copy_loop (y :: o) (x :: d)). exact Hk.
Qed.

Lemma not_fired_owner e : _self e <> None -> fired e = false.
Proof. unfold fired. destruct (_self e); [reflexivity|congruence]. Qed.








Lemma bind_events_loop_binds events d :
  all_have_owner d ->
  bind_events_loop events d = (map (fun kv => (fst kv, bound_from events (snd kv))) d, None).
Proof.
  induction d as [|[k e] d IH]; intros Hown; [reflexivity|].
  assert (Hd : all_have_owner d) by (intros k' e' Hin; eapply Hown; right; exact Hin).
  assert (He : fired e = false) by (apply not_fired_owner; eapply Hown; left; reflexivity).
  cbn [bind_events_loop map fst snd]. unfold bound_from at 1.
  destruct (events !! name e) as [cb|].
  - destruct (bind_appends cb e He) as [-> _]. rewrite (IH Hd). reflexivity.
  - rewrite (IH Hd). reflexivity.
Qed.

(** X20. [bind_events]: when no registered event has fired and the mapping is not
    empty, the call does not raise; every registered event whose name is a
    key of the mapping gets the mapped callback appended and the others
    are left as they are. *)
Theorem bind_events_binds events h x d :
  _events h = Some (x :: d) ->
  size events <> 0%nat ->
  all_have_owner (x :: d) ->
  bind_events events h
  = (set__events (Some (map (fun kv => (fst kv, bound_from events (snd kv))) (x :: d))) h,
     None).
Proof.
  intros Eh Hsize Hown. unfold bind_events. rewrite Eh.
  destruct (Nat.eqb (size events) 0) eqn:E; [apply Nat.eqb_eq in E; congruence|].
  rewrite (bind_events_loop_binds events (x :: d) Hown). reflexivity.
Qed.

Lemma bind_events_binds_witness :
  option_map handlers_list
    (lookup_event "ready" (fst (bind_events {["ready" := late]} owner_B)))
  = Some [late].
Proof.
  rewrite (bind_events_binds {["ready" := late]} owner_B _ _ eq_refl).
  - reflexivity.
  - rewrite map_size_singleton. discriminate.
  - intros k e [H|[H|[]]]; inversion H; discriminate.
Defined.

End EventsMore.

(** * More properties of the actor spawner *)

Module SpawnerMore.
Import Py Spawner SpawnerFacts.

(** X21. An unsupported kind is refused with [ValueError], whatever the other
    arguments, and no descriptor is made. *)
Theorem unsupported_kind_refused uid kind ac tmo monitor aid0 cs params :
  supported kind = false ->
  concurrency uid kind ac tmo monitor aid0 cs params
  = inl (ValueError ("Concurrency " +:+ kind +:+ " not supported by pulsar")).
Proof.
  unfold supported, concurrency. intros H.
  apply orb_false_iff in H as [H Hp]. apply orb_false_iff in H as [Hm Ht].
  rewrite Hm, Ht, Hp. reflexivity.
Qed.

Lemma unsupported_kind_refused_witness :
  concurrency "0123456789ab" "greenlet" "Actor" 30 (Some root) None ∅ ∅
  = inl (ValueError "Concurrency greenlet not supported by pulsar").
Proof.
  exact (unsupported_kind_refused "0123456789ab" "greenlet" "Actor" 30 (Some root)
           None ∅ ∅ eq_refl).
Defined.

Lemma make_fields uid c kind ac tmo monitor aid0 cs params d :
  make uid c kind ac tmo monitor aid0 cs params = inr d ->
  cls d = c /\ impl d = kind /\ commands_set d = cs /\ actor_class d = ac
  /\ loglevel d = fst (pop_loglevel params)
  /\ aid d = match given_aid aid0 with
             | Some a => a
             | None =>
                 match monitor with
                 | Some m => if is_arbiter m then "arbiter" else substring 0 8 uid
                 | None => substring 0 8 uid
                 end
             end.
Proof.
  unfold make. destruct (pop_loglevel params) as [lvl kw]. unfold process_actor.
  cbn [cls]. destruct c.
  - unfold MonitorConcurrency_process_actor. intros H. inversion H; subst; clear H. cbn.
    repeat split; destruct aid0 as [[|ch rest]|]; reflexivity.
  - unfold Concurrency_process_actor. destruct monitor as [m|]; [|discriminate].
    destruct (if is_arbiter m then Some m else arbiter m); [|discriminate].
    intros H. inversion H; subst; clear H. cbn.
    repeat split; destruct aid0 as [[|ch rest]|]; reflexivity.
  - unfold Concurrency_process_actor. destruct monitor as [m|]; [|discriminate].
    destruct (if is_arbiter m then Some m else arbiter m); [|discriminate].
    intros H. inversion H; subst; clear H. cbn.
    repeat split; destruct aid0 as [[|ch rest]|]; reflexivity.
Qed.

Lemma concurrency_make uid kind ac tmo monitor aid0 cs params d :
  concurrency uid kind ac tmo monitor aid0 cs params = inr d ->
  exists c,
    make uid c kind ac tmo monitor aid0 cs params = inr d
    /\ (c = MonitorConcurrency <-> kind = "monitor").
Proof.
  unfold concurrency.
  destruct (String.eqb kind "monitor") eqn:Em.
  { apply String.eqb_eq in Em. intros H. exists MonitorConcurrency. tauto. }
  assert (kind <> "monitor") by (intros ->; discriminate).
  destruct (String.eqb kind "thread").
  { intros H'. exists ActorThread. split; [exact H'|]. split; [discriminate|tauto]. }
  destruct (String.eqb kind "process").
  { intros H'. exists ActorProcess. split; [exact H'|]. split; [discriminate|tauto]. }
  cbn. discriminate.
Qed.

Lemma substring_length s : forall start len,
  (String.length (substring start len s) <= len)%nat.
Proof.
  induction s as [|ch s IH]; intros [|start] [|len]; cbn; try lia.
  - specialize (IH 0%nat len). lia.
  - apply IH.
  - apply IH.
Qed.

(** The id of a descriptor: the id asked for when one is given; otherwise
    ["arbiter"] under the root supervising actor and, under any other
    monitor, the first characters of the generated id, eight at most. *)
Theorem descriptor_id uid kind ac tmo monitor aid0 cs params d :
  concurrency uid kind ac tmo monitor aid0 cs params = inr d ->
  match given_aid aid0, monitor with
  | Some a, _ => aid d = a
  | None, Some m =>
      if is_arbiter m then aid d = "arbiter"
      else aid d = substring 0 8 uid /\ (String.length (aid d) <= 8)%nat
  | None, None => aid d = substring 0 8 uid /\ (String.length (aid d) <= 8)%nat
  end.
Proof.
  intros H. apply concurrency_make in H as [c [H _]].
  apply make_fields in H as [_ [_ [_ [_ [_ Haid]]]]].
  destruct (given_aid aid0); [exact Haid|].
  destruct monitor as [m|]; [destruct (is_arbiter m)|]; try exact Haid;
    (split; [exact Haid|rewrite Haid; apply substring_length]).
Qed.

Lemma descriptor_id_witness :
  aid monitor_descriptor = "arbiter".
Proof.
  exact (descriptor_id "0123456789ab" "monitor" "Monitor" 30 (Some root) None ∅ ∅
           monitor_descriptor eq_refl).
Defined.

(** X22. An in-process monitor is always made, with timeout 0 whatever timeout
    was asked for, with its actor built at once from the constructor
    arguments, and with no proxy-monitor handle. *)
Theorem monitor_is_exempt uid ac tmo monitor aid0 cs params :
  exists d,
    concurrency uid "monitor" ac tmo monitor aid0 cs params = inr d
    /\ timeout d = 0
    /\ actor d = Some (mkBuilt ac (a_kwargs d))
    /\ proxy_monitor d = None.
Proof.
  unfold concurrency. cbn [String.eqb Ascii.eqb Bool.eqb]. unfold make.
  destruct (pop_loglevel params) as [lvl kw]. cbn. eexists. split; [reflexivity|].
  cbn. auto.
Qed.

(** X23. A thread or process host keeps the timeout asked for, does not build
    its actor when it is made, and has a proxy-monitor handle. *)
Theorem hosted_actor_is_deferred uid kind ac tmo monitor aid0 cs params d :
  kind = "thread" \/ kind = "process" ->
  concurrency uid kind ac tmo monitor aid0 cs params = inr d ->
  timeout d = tmo /\ actor d = None
  /\ proxy_monitor d = Some (mkActorProxyMonitor d).
Proof.
  intros Hk H.
  assert (Hc : exists c, (c = ActorThread \/ c = ActorProcess) /\
            make uid c kind ac tmo monitor aid0 cs params = inr d).
  { unfold concurrency in H. destruct Hk as [-> | ->]; cbn in H; eauto. }
  destruct Hc as [c [Hc Hmake]]. unfold make in Hmake.
  destruct (pop_loglevel params) as [lvl kw]. unfold process_actor in Hmake.
  cbn [cls] in Hmake.
  assert (Hp : Concurrency_process_actor monitor
                 {| cls := c; aid := match aid0 with
                                     | Some (String ch rest) => String ch rest
                                     | _ => match monitor with
                                            | Some m => if is_arbiter m then "arbiter"
                                                        else substring 0 8 uid
                                            | None => substring 0 8 uid
                                            end
                                     end;
                    impl := kind; commands_set := cs; timeout := tmo;
                    actor_class := ac; loglevel := lvl; a_kwargs := kw; actor := None |}
               = inr d) by (destruct Hc as [-> | ->]; exact Hmake).
  unfold Concurrency_process_actor in Hp. destruct monitor as [m|]; [|discriminate].
  destruct (if is_arbiter m then Some m else arbiter m); [|discriminate].
  inversion Hp; subst; clear Hp. unfold proxy_monitor. cbn.
  destruct Hc as [-> | ->]; auto.
Qed.

Lemma hosted_actor_is_deferred_witness :
  match concurrency "0123456789ab" "process" "Actor" 30 (Some pool) None ∅ ∅ with
  | inr d => timeout d = 30 /\ actor d = None
  | inl _ => False
  end.
Proof.
  pose proof (hosted_actor_is_deferred "0123456789ab" "process" "Actor" 30
                (Some pool) None ∅ ∅) as H.
  destruct (concurrency "0123456789ab" "process" "Actor" 30 (Some pool) None ∅ ∅)
    as [e|d] eqn:E.
  - vm_compute in E. discriminate E.
  - destruct (H d (or_intror eq_refl) eq_refl) as [Ht [Ha _]]. auto.
Defined.

Lemma insert_other (m : gmap string kwval) k k' v :
  k <> k' -> <[k := v]> m !! k' = m !! k'.
Proof. intros H. apply lookup_insert_ne. exact H. Qed.

(** X24. The constructor arguments are forwarded: [loglevel] is taken out of
    them and kept on the descriptor ([None] when there is none), and every
    other argument but [arbiter] and [monitor] reaches the actor as given. *)
Theorem constructor_arguments_forwarded uid kind ac tmo monitor aid0 cs params d :
  concurrency uid kind ac tmo monitor aid0 cs params = inr d ->
  loglevel d = match params !! "loglevel" with Some v => v | None => KNone end
  /\ a_kwargs d !! "loglevel" = None
  /\ forall key, key <> "loglevel" -> key <> "arbiter" -> key <> "monitor" ->
       a_kwargs d !! key = params !! key.
Proof.
  intros H. apply concurrency_make in H as [c [H _]].
  pose proof (make_fields _ _ _ _ _ _ _ _ _ _ H) as [_ [_ [_ [_ [Hlvl _]]]]].
  assert (Hpop : fst (pop_loglevel params)
                 = match params !! "loglevel" with Some v => v | None => KNone end
                 /\ snd (pop_loglevel params) !! "loglevel" = None
                 /\ forall key, key <> "loglevel" ->
                      snd (pop_loglevel params) !! key = params !! key).
  { unfold pop_loglevel. destruct (params !! "loglevel") eqn:E; cbn.
    - split; [reflexivity|]. split; [apply lookup_delete_eq|].
      intros key Hk. apply lookup_delete_ne. congruence.
    - auto. }
  destruct Hpop as [Hfst [Hnone Hother]].
  split; [rewrite Hlvl; exact Hfst|].
  unfold make in H. destruct (pop_loglevel params) as [lvl kw]. cbn [fst snd] in *.
  unfold process_actor in H. cbn [cls] in H.
  assert (Hkw : forall key, key <> "arbiter" -> key <> "monitor" ->
                  a_kwargs d !! key = kw !! key).
  { destruct c.
    - unfold MonitorConcurrency_process_actor in H. inversion H; subst; clear H. cbn.
      intros key Ha _. apply insert_other. congruence.
    - unfold Concurrency_process_actor in H. destruct monitor as [m|]; [|discriminate].
      destruct (if is_arbiter m then Some m else arbiter m); [|discriminate].
      inversion H; subst; clear H. cbn. intros key Ha Hm.
      rewrite !insert_other by congruence. reflexivity.
    - unfold Concurrency_process_actor in H. destruct monitor as [m|]; [|discriminate].
      destruct (if is_arbiter m then Some m else arbiter m); [|discriminate].
      inversion H; subst; clear H. cbn. intros key Ha Hm.
      rewrite !insert_other by congruence. reflexivity. }
  split.
  - rewrite Hkw by discriminate. exact Hnone.
  - intros key Hl Ha Hm. rewrite Hkw by assumption. apply Hother, Hl.
Qed.

Lemma constructor_arguments_forwarded_witness :
  match concurrency "0123456789ab" "thread" "Actor" 30 (Some pool) None ∅
          (<["loglevel" := KVal (VStr "debug")]> {["name" := KVal (VStr "worker")]}) with
  | inr d => loglevel d = KVal (VStr "debug") /\ a_kwargs d !! "loglevel" = None
             /\ a_kwargs d !! "name" = Some (KVal (VStr "worker"))
  | inl _ => False
  end.
Proof.
  pose proof (constructor_arguments_forwarded "0123456789ab" "thread" "Actor" 30
                (Some pool) None ∅
                (<["loglevel" := KVal (VStr "debug")]> {["name" := KVal (VStr "worker")]}))
    as H.
  destruct (concurrency _ _ _ _ _ _ _ _) as [e|d] eqn:E.
  - vm_compute in E. discriminate E.
  - destruct (H d eq_refl) as [Hl [Hn Ho]]. split; [|split].
    + rewrite Hl. reflexivity.
    + exact Hn.
    + rewrite Ho by discriminate. reflexivity.
Defined.

(** X25. [terminate] returns after exactly [n] sleeps of 0.1 s when the stop
    result reads as called the first [n] times and as not called the next
    time; that is, it leaves the loop the first time the result is seen
    NOT delivered. *)
Theorem terminate_returns_at_first_not_called called n fuel :
  called n = false ->
  (forall j, (j < n)%nat -> called j = true) ->
  (n < fuel)%nat ->
  terminate called fuel = Some (stop true :: repeat (sleep (1 # 10)) n).
Proof.
  intros Hn Hbefore Hfuel. unfold terminate.
  assert (Hloop : forall m k f, (k + m = n)%nat -> (m < f)%nat ->
            terminate_loop called f k = Some (repeat (sleep (1 # 10)) m)).
  { induction m as [|m IH]; intros k f Hk Hf; (destruct f as [|f]; [lia|]);
      cbn [terminate_loop repeat].
    - replace k with n by lia. rewrite Hn. reflexivity.
    - rewrite Hbefore by lia. rewrite (IH (S k) f) by lia. reflexivity. }
  rewrite (Hloop n 0%nat fuel) by lia. reflexivity.
Qed.

Lemma terminate_returns_at_first_not_called_witness :
  terminate (fun k => Nat.ltb k 2) 5
  = Some [stop true; sleep (1 # 10); sleep (1 # 10)].
Proof.
  apply (terminate_returns_at_first_not_called (fun k => Nat.ltb k 2) 2 5).
  - reflexivity.
  - intros j Hj. apply Nat.ltb_lt. exact Hj.
  - lia.
Defined.

End SpawnerMore.

(** * More properties of the test runner *)

Module TestCaseMore.
Import TestCase TestCaseFacts.

Lemma hooks_run_app l1 l2 : hooks_run (l1 ++ l2) = hooks_run l1 ++ hooks_run l2.
Proof.
  induction l1 as [|e l1 IH]; [reflexivity|].
  destruct e; cbn; rewrite IH; reflexivity.
Qed.

Lemma hooks_run_add_failure r : hooks_run (fst (add_failure r)) = [].
Proof.
  destruct r as [traces|v]; [|reflexivity]. cbn.
  induction traces as [|t traces IH]; [reflexivity|].
  cbn. destruct (is_failureException t); exact IH.
Qed.

Lemma add_failure_flag r : snd (add_failure r) = negb (passed r).
Proof. destruct r; reflexivity. Qed.

Lemma add_failure_no_success r : ~ In addSuccess (fst (add_failure r)).
Proof.
  intros H. apply add_failure_calls in H as [[t H]|[t H]]; discriminate.
Qed.

(** The steps as one list and one flag. *)
Lemma run_steps_unfold R test :
  exists l, fst (run_steps R test) = l
    /\ snd (run_steps R test) = all_passed R test
    /\ ~ In addSuccess l
    /\ hooks_run l = hooks_due R test.
Proof.
  eexists. split; [reflexivity|].
  unfold run_steps, run_test_function, all_passed, hooks_due.
  pose proof (add_failure_flag (R _pre_setup)) as Fpre.
  pose proof (add_failure_flag (R setUp)) as Fset.
  pose proof (add_failure_flag (R testMethod)) as Ftest.
  pose proof (add_failure_flag (R tearDown)) as Fdown.
  pose proof (add_failure_flag (R _post_teardown)) as Fpost.
  pose proof (add_failure_no_success (R _pre_setup)) as Npre.
  pose proof (add_failure_no_success (R setUp)) as Nset.
  pose proof (add_failure_no_success (R testMethod)) as Ntest.
  pose proof (add_failure_no_success (R tearDown)) as Ndown.
  pose proof (add_failure_no_success (R _post_teardown)) as Npost.
  pose proof (hooks_run_add_failure (R _pre_setup)) as Hpre.
  pose proof (hooks_run_add_failure (R setUp)) as Hset.
  pose proof (hooks_run_add_failure (R testMethod)) as Htest.
  pose proof (hooks_run_add_failure (R tearDown)) as Hdown.
  pose proof (hooks_run_add_failure (R _post_teardown)) as Hpost.
  destruct (add_failure (R _pre_setup)) as [lpre fpre].
  destruct (add_failure (R setUp)) as [lset fset].
  destruct (add_failure (R testMethod)) as [ltest ftest].
  destruct (add_failure (R tearDown)) as [ldown fdown].
  destruct (add_failure (R _post_teardown)) as [lpost fpost].
  cbn [fst snd] in *.
  destruct (passed (R _pre_setup)), (passed (R setUp)), (passed (R testMethod)),
    (passed (R tearDown)), (passed (R _post_teardown));
    cbn [negb] in *; subst fpre fset ftest fdown fpost;
    destruct (has__pre_setup test), (has__post_teardown test); cbn [negb fst snd orb andb];
    (split; [reflexivity|]); (split;
      [ rewrite ?in_app_iff; cbn [In]; intuition discriminate
      | rewrite ?hooks_run_app; cbn [hooks_run app];
        rewrite ?hooks_run_app, ?Hpre, ?Hset, ?Htest, ?Hdown, ?Hpost; reflexivity ]).
Qed.

(** X26. [run_test] records a success exactly for a test that is not skipped and
    passes every step it has: the pre-setup hook, [setUp], the test method,
    [tearDown] and the post-teardown hook. *)
Theorem success_iff_all_passed R test :
  In addSuccess (run_test R test)
  <-> skip_marked test = false /\ all_passed R test = true.
Proof.
  unfold run_test. fold (skip_marked test).
  destruct (skip_marked test).
  - cbn. split; [intros [H|[]]; discriminate|intros [H _]; discriminate].
  - destruct (run_steps_unfold R test) as [l [Hl [Hs [Hn _]]]].
    destruct (run_steps R test) as [l' success]. cbn [fst snd] in *. subst l' success.
    destruct (all_passed R test).
    + split; [auto|]. intros _. apply in_or_app. right. left. reflexivity.
    + split; [intros H; contradiction|intros [_ H]; discriminate].
Qed.

(** X27. The hooks [run_test] runs, in the order it runs them: none for a skipped
    test; otherwise the pre-setup hook if there is one, [setUp] unless the
    pre-setup hook failed, the test method and then [tearDown] when [setUp]
    passed (so [tearDown] runs also after a failed test method), and the
    post-teardown hook if there is one, whatever happened before. *)
Theorem hooks_run_in_order R test :
  hooks_run (run_test R test)
  = if skip_marked test then [] else hooks_due R test.
Proof.
  unfold run_test. fold (skip_marked test).
  destruct (skip_marked test); [reflexivity|].
  destruct (run_steps_unfold R test) as [l [Hl [_ [_ Hh]]]].
  destruct (run_steps R test) as [l' success]. cbn [fst] in *. subst l'.
  destruct success; [|exact Hh].
  rewrite hooks_run_app, Hh. cbn. apply app_nil_r.
Qed.

(** ** [TestRequest.run] *)

Lemma class_step_effects cr defined h e :
  In e (fst (class_step cr defined h)) -> about_a_test e = false /\ e <> send_test_result.
Proof.
  unfold class_step. destruct defined; [|intros []].
  destruct (add_failure (cr h)) as [lf failed]. cbn.
  intros [<-|H]; [split; [reflexivity|discriminate]|].
  apply in_map_iff in H as [x [<- _]]. split; [reflexivity|discriminate].
Qed.

Lemma run_tests_effects tr c e :
  In e (run_tests tr c) -> about_a_test e = true.
Proof.
  unfold run_tests. intros H. apply in_flat_map in H as [m [_ H]].
  destruct H as [<-|H]; [reflexivity|].
  apply in_app_or in H as [H|[<-|[]]]; [|reflexivity].
  apply in_map_iff in H as [x [<- _]]. reflexivity.
Qed.

(** X28. Whatever the class and whatever fails, [run] sends the result of the
    runner to the monitor exactly once, as the last thing it does. *)
Theorem result_sent_once_at_the_end cr tr tag c :
  exists l, run cr tr tag c = l ++ [send_test_result] /\ ~ In send_test_result l.
Proof.
  unfold run. eexists. split; [rewrite app_assoc; reflexivity|].
  intros H. apply in_app_or in H as [H|H].
  { destruct H as [H|[H|[]]]; discriminate. }
  destruct (cls_tests c) as [|m ms] eqn:Et; [destruct H|].
  destruct (negb (getattr (cls___unittest_skip__ c) false)).
  - pose proof (class_step_effects cr (cls_has_setUpClass c) setUpClass) as H1.
    pose proof (class_step_effects cr (cls_has_tearDownClass c) tearDownClass) as H3.
    destruct (class_step cr (cls_has_setUpClass c) setUpClass) as [l1 stop].
    cbn [fst] in *. rewrite !in_app_iff in H. destruct H as [H|[H|H]].
    + apply H1 in H. tauto.
    + destruct (negb stop); [|destruct H]. apply run_tests_effects in H. discriminate.
    + apply H3 in H. tauto.
  - cbn [negb] in H. rewrite !in_app_iff in H. destruct H as [[]|[H|[]]].
    apply run_tests_effects in H. discriminate.
Qed.

(** X29. When [setUpClass] fails, no test of the class is started, let alone
    run, and [tearDownClass] is still run if the class has one. *)
Theorem setUpClass_failure_stops_the_class cr tr tag c traces :
  getattr (cls___unittest_skip__ c) false = false ->
  cls_has_setUpClass c = true ->
  cr setUpClass = Failure traces ->
  existsb about_a_test (run cr tr tag c) = false
  /\ (cls_tests c <> [] -> cls_has_tearDownClass c = true ->
      In (ran_class tearDownClass) (run cr tr tag c)).
Proof.
  intros Hskip Hup Hfail. unfold run. rewrite Hskip, Hup. cbn [negb class_step].
  rewrite Hfail. cbn [add_failure negb fst].
  pose proof (class_step_effects cr (cls_has_tearDownClass c) tearDownClass) as H3.
  split.
  - rewrite !existsb_app. cbn [existsb about_a_test orb].
    destruct (cls_tests c); [reflexivity|]. rewrite orb_false_r.
    rewrite !existsb_app. cbn [existsb about_a_test orb app].
    assert (Hmap : forall l, existsb about_a_test (map on_class l) = false)
      by (intros l0; induction l0 as [|x l0 IH]; cbn; [reflexivity|exact IH]).
    rewrite Hmap. cbn [orb].
    destruct (existsb about_a_test (fst (class_step cr (cls_has_tearDownClass c) tearDownClass)))
      eqn:E; [|reflexivity].
    apply existsb_exists in E as [e [Hin He]]. apply H3 in Hin. destruct Hin. congruence.
  - intros Hne Hdown. destruct (cls_tests c); [congruence|]. rewrite Hdown.
    cbn [class_step]. destruct (add_failure (cr tearDownClass)). cbn [fst].
    rewrite !in_app_iff. right. left. right. right. left. reflexivity.
Qed.

Lemma setUpClass_failure_stops_the_class_witness :
  existsb about_a_test (run broken_setUpClass (fun _ => all_pass) "tag" two_tests) = false
  /\ In (ran_class tearDownClass)
        (run broken_setUpClass (fun _ => all_pass) "tag" two_tests).
Proof.
  destruct (setUpClass_failure_stops_the_class broken_setUpClass (fun _ => all_pass)
              "tag" two_tests [mkTrace 1 false] eq_refl eq_refl eq_refl) as [H1 H2].
  split; [exact H1|]. apply H2; [discriminate|reflexivity].
Defined.

(** X30. For a class marked skipped, [run] runs neither [setUpClass] nor
    [tearDownClass]; every test is started, recorded as skipped, with the
    reason of the class unless that is empty, and stopped. *)
Theorem skipped_class_skips_every_test cr tr tag c :
  getattr (cls___unittest_skip__ c) false = true ->
  run cr tr tag c
  = [pop_runner; set_tag tag] ++ flat_map (skipped_test c) (cls_tests c)
    ++ [send_test_result].
Proof.
  intros Hskip.
  assert (Htests : run_tests tr c = flat_map (skipped_test c) (cls_tests c)).
  { unfold run_tests. apply flat_map_ext. intros m. unfold skipped_test.
    unfold run_test, instance, recorded_reason. cbn. rewrite Hskip. reflexivity. }
  unfold run. rewrite Hskip, <- Htests. cbn [negb].
  destruct (cls_tests c) eqn:Et.
  - unfold run_tests. rewrite Et. reflexivity.
  - cbn [app]. rewrite app_nil_r. reflexivity.
Qed.

Lemma skipped_class_skips_every_test_witness :
  run broken_setUpClass (fun _ => all_pass) "tag" two_tests_skipped
  = [pop_runner; set_tag "tag";
     startTest "test_a"; in_test "test_a" (addSkip "class off"); stopTest "test_a";
     startTest "test_b"; in_test "test_b" (addSkip "class off"); stopTest "test_b";
     send_test_result].
Proof.
  exact (skipped_class_skips_every_test broken_setUpClass (fun _ => all_pass) "tag"
           two_tests_skipped eq_refl).
Defined.

End TestCaseMore.
